(** * Kafka-Pixy configuration loader: [config/config.go]

    A shallow embedding of the configuration package (defaults, the
    per-cluster merge of [FromYAML], and the validator) together with the
    properties of its specification.

    Conventions of the embedding.
    - Go [int] (64 bits wide) and [time.Duration] (an [int64] count of
      nanoseconds) are [Z]; the code only compares them, and the decoder
      range-checks what it stores, so no wrap-around arises.  A slice of
      strings is a [list string], the [nil] slice being the empty list.
    - A Go [error] is a value of [error]; [Error] renders the message the way
      [github.com/pkg/errors] does ([Wrap] prefixes the cause with the new
      message and a colon).  A function returning [(T, error)] returns a
      [result T]; one returning only [error] returns [option error], with
      [None] for [nil].
    - The maps of Go are finite maps [gmap string _].  The order in which
      [range] visits a map is not fixed by the language: it is a parameter of
      the development, constrained only to be a permutation of the entries.
    - [gopkg.in/yaml.v2] is an external library.  A document is represented
      by the tree of values the decoder builds from it ([yaml]); what the
      decoder does with that tree when it fills a Go struct is written out in
      the module [Yaml] below.
    - What the operating system provides ([os.Getenv], the client identifier
      built from host name, clock and process id) and [time.ParseDuration]
      are parameters. *)

From Stdlib Require Import ZArith Ascii.
From stdpp Require Import base option list strings pretty gmap fin_maps.

Local Open Scope string_scope.
Local Open Scope Z_scope.

(** ** Errors *)

Inductive error : Type :=
| errors_New (msg : string)                (* errors.New, errors.Errorf *)
| errors_Wrap (cause : error) (msg : string) (* errors.Wrap, errors.Wrapf *)
| yaml_TypeError.                          (* error value of the decoder *)

Fixpoint Error (e : error) : string :=
  match e with
  | errors_New msg => msg
  | errors_Wrap cause msg => msg +:+ ": " +:+ Error cause
  | yaml_TypeError => "yaml: unmarshal errors"
  end.

Inductive result (A : Type) : Type :=
| Ok (a : A)
| Err (e : error).
Arguments Ok {A} a.
Arguments Err {A} e.

(** [names msg x]: the text [x] occurs in the message [msg]. *)
Definition names (msg x : string) : Prop :=
  ∃ pre post, msg = pre +:+ x +:+ post.

(** ** Constants of the client library (sarama) *)

Inductive CompressionCodec : Type :=
| CompressionNone | CompressionGZIP | CompressionSnappy | CompressionLZ4.

Inductive RequiredAcks : Type :=
| NoResponse | WaitForLocal | WaitForAll.

Inductive KafkaVersion : Type :=
| V0_8_2_2 | V0_9_0_0 | V0_9_0_1 | V0_10_0_0 | V0_10_0_1 | V0_10_1_0.

Definition defaultCompression : string := "snappy".
Definition defaultRequiredAcks : string := "wait_for_all".
Definition defaultKafkaVersion : string := "0.8.2.2".

Definition compressionCodecs : gmap string CompressionCodec :=
  <["none" := CompressionNone]> (
  <["gzip" := CompressionGZIP]> (
  <["snappy" := CompressionSnappy]> (
  <["lz4" := CompressionLZ4]> ∅))).

Definition producerAcks : gmap string RequiredAcks :=
  <["no_response" := NoResponse]> (
  <["wait_for_local" := WaitForLocal]> (
  <["wait_for_all" := WaitForAll]> ∅)).

Definition kafkaVersions : gmap string KafkaVersion :=
  <["0.8.2.2" := V0_8_2_2]> (
  <["0.9.0.0" := V0_9_0_0]> (
  <["0.9.0.1" := V0_9_0_1]> (
  <["0.10.0.0" := V0_10_0_0]> (
  <["0.10.0.1" := V0_10_0_1]> (
  <["0.10.1.0" := V0_10_1_0]> ∅))))).

(** [_, ok := m[k]] *)
Definition has_key {V} (m : gmap string V) (k : string) : bool :=
  match m !! k with
  | Some _ => true
  | None => false
  end.

(** ** Units of [time.Duration] *)

Definition Millisecond : Z := 1000000.
Definition Second : Z := 1000 * Millisecond.

(** ** The configuration records *)

Record Kafka_t : Type := mkKafka {
  Kafka_SeedPeers : list string;
  Kafka_Version : string
}.

Record ZooKeeper_t : Type := mkZooKeeper {
  ZooKeeper_SeedPeers : list string;
  ZooKeeper_Chroot : string
}.

Record Producer_t : Type := mkProducer {
  Producer_ChannelBufferSize : Z;
  Producer_Compression : string;
  Producer_FlushBytes : Z;
  Producer_FlushFrequency : Z;
  Producer_RetryBackoff : Z;
  Producer_RetryMax : Z;
  Producer_RequiredAcks : string;
  Producer_ShutdownTimeout : Z
}.

Record Consumer_t : Type := mkConsumer {
  Consumer_AckTimeout : Z;
  Consumer_ChannelBufferSize : Z;
  Consumer_FetchBytes : Z;
  Consumer_LongPollingTimeout : Z;
  Consumer_OffsetsCommitInterval : Z;
  Consumer_RebalanceDelay : Z;
  Consumer_RegistrationTimeout : Z;
  Consumer_RetryBackoff : Z
}.

Record Proxy : Type := mkProxy {
  ClientID : string;
  Kafka : Kafka_t;
  ZooKeeper : ZooKeeper_t;
  Producer : Producer_t;
  Consumer : Consumer_t
}.

Record App : Type := mkApp {
  GRPCAddr : string;
  TCPAddr : string;
  UnixAddr : string;
  Proxies : gmap string Proxy;
  DefaultCluster : string
}.

(** *** Assignment to one field

    [set_F x r] is [r] after [r.F = x]. *)

Definition set_Kafka_SeedPeers (x : list string) (r : Kafka_t) : Kafka_t :=
  mkKafka x (Kafka_Version r).
Definition set_Kafka_Version (x : string) (r : Kafka_t) : Kafka_t :=
  mkKafka (Kafka_SeedPeers r) x.

Definition set_ZooKeeper_SeedPeers (x : list string) (r : ZooKeeper_t) : ZooKeeper_t :=
  mkZooKeeper x (ZooKeeper_Chroot r).
Definition set_ZooKeeper_Chroot (x : string) (r : ZooKeeper_t) : ZooKeeper_t :=
  mkZooKeeper (ZooKeeper_SeedPeers r) x.

Definition set_Producer_ChannelBufferSize (x : Z) (r : Producer_t) : Producer_t :=
  mkProducer x (Producer_Compression r) (Producer_FlushBytes r)
    (Producer_FlushFrequency r) (Producer_RetryBackoff r)
    (Producer_RetryMax r) (Producer_RequiredAcks r)
    (Producer_ShutdownTimeout r).
Definition set_Producer_Compression (x : string) (r : Producer_t) : Producer_t :=
  mkProducer (Producer_ChannelBufferSize r) x (Producer_FlushBytes r)
    (Producer_FlushFrequency r) (Producer_RetryBackoff r)
    (Producer_RetryMax r) (Producer_RequiredAcks r)
    (Producer_ShutdownTimeout r).
Definition set_Producer_FlushBytes (x : Z) (r : Producer_t) : Producer_t :=
  mkProducer (Producer_ChannelBufferSize r) (Producer_Compression r) x
    (Producer_FlushFrequency r) (Producer_RetryBackoff r)
    (Producer_RetryMax r) (Producer_RequiredAcks r)
    (Producer_ShutdownTimeout r).
Definition set_Producer_FlushFrequency (x : Z) (r : Producer_t) : Producer_t :=
  mkProducer (Producer_ChannelBufferSize r) (Producer_Compression r)
    (Producer_FlushBytes r) x (Producer_RetryBackoff r)
    (Producer_RetryMax r) (Producer_RequiredAcks r)
    (Producer_ShutdownTimeout r).
Definition set_Producer_RetryBackoff (x : Z) (r : Producer_t) : Producer_t :=
  mkProducer (Producer_ChannelBufferSize r) (Producer_Compression r)
    (Producer_FlushBytes r) (Producer_FlushFrequency r) x
    (Producer_RetryMax r) (Producer_RequiredAcks r)
    (Producer_ShutdownTimeout r).
Definition set_Producer_RetryMax (x : Z) (r : Producer_t) : Producer_t :=
  mkProducer (Producer_ChannelBufferSize r) (Producer_Compression r)
    (Producer_FlushBytes r) (Producer_FlushFrequency r)
    (Producer_RetryBackoff r) x (Producer_RequiredAcks r)
    (Producer_ShutdownTimeout r).
Definition set_Producer_RequiredAcks (x : string) (r : Producer_t) : Producer_t :=
  mkProducer (Producer_ChannelBufferSize r) (Producer_Compression r)
    (Producer_FlushBytes r) (Producer_FlushFrequency r)
    (Producer_RetryBackoff r) (Producer_RetryMax r) x
    (Producer_ShutdownTimeout r).
Definition set_Producer_ShutdownTimeout (x : Z) (r : Producer_t) : Producer_t :=
  mkProducer (Producer_ChannelBufferSize r) (Producer_Compression r)
    (Producer_FlushBytes r) (Producer_FlushFrequency r)
    (Producer_RetryBackoff r) (Producer_RetryMax r)
    (Producer_RequiredAcks r) x.

Definition set_Consumer_AckTimeout (x : Z) (r : Consumer_t) : Consumer_t :=
  mkConsumer x (Consumer_ChannelBufferSize r) (Consumer_FetchBytes r)
    (Consumer_LongPollingTimeout r) (Consumer_OffsetsCommitInterval r)
    (Consumer_RebalanceDelay r) (Consumer_RegistrationTimeout r)
    (Consumer_RetryBackoff r).
Definition set_Consumer_ChannelBufferSize (x : Z) (r : Consumer_t) : Consumer_t :=
  mkConsumer (Consumer_AckTimeout r) x (Consumer_FetchBytes r)
    (Consumer_LongPollingTimeout r) (Consumer_OffsetsCommitInterval r)
    (Consumer_RebalanceDelay r) (Consumer_RegistrationTimeout r)
    (Consumer_RetryBackoff r).
Definition set_Consumer_FetchBytes (x : Z) (r : Consumer_t) : Consumer_t :=
  mkConsumer (Consumer_AckTimeout r) (Consumer_ChannelBufferSize r) x
    (Consumer_LongPollingTimeout r) (Consumer_OffsetsCommitInterval r)
    (Consumer_RebalanceDelay r) (Consumer_RegistrationTimeout r)
    (Consumer_RetryBackoff r).
Definition set_Consumer_LongPollingTimeout (x : Z) (r : Consumer_t) : Consumer_t :=
  mkConsumer (Consumer_AckTimeout r) (Consumer_ChannelBufferSize r)
    (Consumer_FetchBytes r) x (Consumer_OffsetsCommitInterval r)
    (Consumer_RebalanceDelay r) (Consumer_RegistrationTimeout r)
    (Consumer_RetryBackoff r).
Definition set_Consumer_OffsetsCommitInterval (x : Z) (r : Consumer_t) : Consumer_t :=
  mkConsumer (Consumer_AckTimeout r) (Consumer_ChannelBufferSize r)
    (Consumer_FetchBytes r) (Consumer_LongPollingTimeout r) x
    (Consumer_RebalanceDelay r) (Consumer_RegistrationTimeout r)
    (Consumer_RetryBackoff r).
Definition set_Consumer_RebalanceDelay (x : Z) (r : Consumer_t) : Consumer_t :=
  mkConsumer (Consumer_AckTimeout r) (Consumer_ChannelBufferSize r)
    (Consumer_FetchBytes r) (Consumer_LongPollingTimeout r)
    (Consumer_OffsetsCommitInterval r) x (Consumer_RegistrationTimeout r)
    (Consumer_RetryBackoff r).
Definition set_Consumer_RegistrationTimeout (x : Z) (r : Consumer_t) : Consumer_t :=
  mkConsumer (Consumer_AckTimeout r) (Consumer_ChannelBufferSize r)
    (Consumer_FetchBytes r) (Consumer_LongPollingTimeout r)
    (Consumer_OffsetsCommitInterval r) (Consumer_RebalanceDelay r) x
    (Consumer_RetryBackoff r).
Definition set_Consumer_RetryBackoff (x : Z) (r : Consumer_t) : Consumer_t :=
  mkConsumer (Consumer_AckTimeout r) (Consumer_ChannelBufferSize r)
    (Consumer_FetchBytes r) (Consumer_LongPollingTimeout r)
    (Consumer_OffsetsCommitInterval r) (Consumer_RebalanceDelay r)
    (Consumer_RegistrationTimeout r) x.

Definition set_ClientID (x : string) (p : Proxy) : Proxy :=
  mkProxy x (Kafka p) (ZooKeeper p) (Producer p) (Consumer p).
Definition set_Kafka (x : Kafka_t) (p : Proxy) : Proxy :=
  mkProxy (ClientID p) x (ZooKeeper p) (Producer p) (Consumer p).
Definition set_ZooKeeper (x : ZooKeeper_t) (p : Proxy) : Proxy :=
  mkProxy (ClientID p) (Kafka p) x (Producer p) (Consumer p).
Definition set_Producer (x : Producer_t) (p : Proxy) : Proxy :=
  mkProxy (ClientID p) (Kafka p) (ZooKeeper p) x (Consumer p).
Definition set_Consumer (x : Consumer_t) (p : Proxy) : Proxy :=
  mkProxy (ClientID p) (Kafka p) (ZooKeeper p) (Producer p) x.

(** ** Validation of one proxy *)

Definition Proxy_validate (p : Proxy) : option error :=
  if negb (has_key kafkaVersions (Kafka_Version (Kafka p))) then
    Some (errors_New ("Bad kafka.version: " +:+ Kafka_Version (Kafka p)))
  else if Producer_ChannelBufferSize (Producer p) <=? 0 then
    Some (errors_New "producer.channel_buffer_size must be > 0")
  else if Producer_FlushBytes (Producer p) <? 0 then
    Some (errors_New "producer.flush_bytes must be >= 0")
  else if Producer_FlushFrequency (Producer p) <? 0 then
    Some (errors_New "producer.flush_frequency must be >= 0")
  else if Producer_RetryBackoff (Producer p) <=? 0 then
    Some (errors_New "producer.retry_backoff must be > 0")
  else if Producer_RetryMax (Producer p) <=? 0 then
    Some (errors_New "producer.retry_max must be > 0")
  else if Producer_ShutdownTimeout (Producer p) <? 0 then
    Some (errors_New "producer.shutdown_timeout must be >= 0")
  else if negb (has_key compressionCodecs (Producer_Compression (Producer p))) then
    Some (errors_New ("Bad producer.compression: " +:+ Producer_Compression (Producer p)))
  else if negb (has_key producerAcks (Producer_RequiredAcks (Producer p))) then
    Some (errors_New ("Bad producer.required_acks: " +:+ Producer_RequiredAcks (Producer p)))
  else if Consumer_AckTimeout (Consumer p) >=? Consumer_RegistrationTimeout (Consumer p) then
    Some (errors_New "consumer.ack_timeout must be < consumer.registration_timeout")
  else if Consumer_ChannelBufferSize (Consumer p) <=? 0 then
    Some (errors_New "consumer.channel_buffer_size must be > 0")
  else if Consumer_FetchBytes (Consumer p) <=? 0 then
    Some (errors_New "consumer.fetch_bytes must be > 0")
  else if Consumer_LongPollingTimeout (Consumer p) <=? 0 then
    Some (errors_New "consumer.long_polling_timeout must be > 0")
  else if Consumer_OffsetsCommitInterval (Consumer p) <=? 0 then
    Some (errors_New "consumer.offsets_commit_interval must be > 0")
  else if Consumer_RebalanceDelay (Consumer p) <=? 0 then
    Some (errors_New "consumer.rebalance_delay must be > 0")
  else if Consumer_RegistrationTimeout (Consumer p) <=? 0 then
    Some (errors_New "consumer.registration_timeout must be > 0")
  else if Consumer_RetryBackoff (Consumer p) <=? 0 then
    Some (errors_New "consumer.retry_backoff must be > 0")
  else None.

(** ** Documents

    The values [yaml.Unmarshal] builds when its target is a [yaml.MapSlice]:
    scalars, sequences, and mappings kept as ordered lists of items (while a
    [MapSlice] is being filled the decoder keeps every nested mapping as a
    [MapSlice] too).  Floating-point and timestamp scalars are left out. *)

#[warnings="-register-all"]
Inductive yaml : Type :=
| YNull
| YBool (b : bool)
| YInt (n : Z)
| YStr (s : string)
| YSeq (elems : list yaml)
| YMap (items : list (yaml * yaml)).

(** [yaml.MapItem] is a key with its value, [yaml.MapSlice] a list of them. *)
Definition MapItem : Type := yaml * yaml.
Definition MapSlice : Type := list MapItem.

Module Yaml.

(** [yaml.Marshal] of a decoded value.  The text it prints is read back by
    the decoder as the same tree, so the encoded form is represented by
    the tree itself; on such values the encoder has no failure. *)
Definition Marshal (v : yaml) : yaml := v.

(** The text of a scalar node, which is what a string target receives. *)
Definition scalar_text (v : yaml) : option string :=
  match v with
  | YBool b => Some (if b then "true" else "false")
  | YInt n => Some (pretty n)
  | YStr s => Some s
  | _ => None
  end.

(** A null node sets its target to the zero value of the target's type. *)
Definition decode_string (v : yaml) : result string :=
  match v with
  | YNull => Ok ""
  | _ => match scalar_text v with
         | Some s => Ok s
         | None => Err yaml_TypeError
         end
  end.

Definition fits_int64 (n : Z) : bool :=
  (- 2 ^ 63 <=? n) && (n <? 2 ^ 63).

Definition decode_int (v : yaml) : result Z :=
  match v with
  | YNull => Ok 0
  | YInt n => if fits_int64 n then Ok n else Err yaml_TypeError
  | _ => Err yaml_TypeError
  end.

Fixpoint decode_strings_elems (elems : list yaml) : result (list string) :=
  match elems with
  | [] => Ok []
  | v :: rest =>
      match decode_string v with
      | Err e => Err e
      | Ok s =>
          match decode_strings_elems rest with
          | Err e => Err e
          | Ok l => Ok (s :: l)
          end
      end
  end.

Definition decode_strings (v : yaml) : result (list string) :=
  match v with
  | YNull => Ok []
  | YSeq elems => decode_strings_elems elems
  | _ => Err yaml_TypeError
  end.

Section Duration.
(** [time.ParseDuration], [None] when it reports an error. *)
Variable ParseDuration : string → option Z.

Definition decode_Duration (v : yaml) : result Z :=
  match v with
  | YStr s => match ParseDuration s with
              | Some d => Ok d
              | None => Err yaml_TypeError
              end
  | _ => decode_int v
  end.
End Duration.

(** *** Filling a struct from a mapping

    A struct is described by the table of its fields: the key of each
    field (its [yaml] tag) and how a node is stored into it. *)

Definition setter (T : Type) : Type := yaml → T → result T.
Definition fields (T : Type) : Type := list (string * setter T).

Fixpoint field_by_name {T} (tbl : fields T) (name : string) : option (setter T) :=
  match tbl with
  | [] => None
  | (key, set) :: rest =>
      if String.eqb key name then Some set else field_by_name rest name
  end.

(** The key of an item, read into a string. *)
Definition decode_name (k : yaml) : result string := decode_string k.

(** Items are applied in document order; a key that names no field is
    skipped.  The decoder reports type errors once it has visited every
    item, and its caller receives nothing but the error then, so the model
    stops at the first one. *)
Fixpoint mappingStruct {T} (tbl : fields T) (items : MapSlice) (out : T) : result T :=
  match items with
  | [] => Ok out
  | (k, v) :: rest =>
      match decode_name k with
      | Err e => Err e
      | Ok name =>
          match field_by_name tbl name with
          | None => mappingStruct tbl rest out
          | Some set =>
              match set v out with
              | Err e => Err e
              | Ok out' => mappingStruct tbl rest out'
              end
          end
      end
  end.

(** A node decoded onto a struct that already holds values. *)
Definition unmarshal_struct {T} (zero : T) (tbl : fields T) : setter T :=
  fun v out =>
    match v with
    | YNull => Ok zero
    | YMap items => mappingStruct tbl items out
    | _ => Err yaml_TypeError
    end.

(** A field of scalar or list type. *)
Definition leaf {T A} (dec : yaml → result A) (upd : A → T → T) : setter T :=
  fun v out =>
    match dec v with
    | Ok a => Ok (upd a out)
    | Err e => Err e
    end.

(** A field that is itself a struct: the node is decoded onto the value
    the field holds. *)
Definition sub {T S} (zero : S) (tbl : fields S) (get : T → S) (upd : S → T → T)
  : setter T :=
  fun v out =>
    match unmarshal_struct zero tbl v (get out) with
    | Ok s => Ok (upd s out)
    | Err e => Err e
    end.

End Yaml.

(** ** Settings of the client libraries

    [sarama.Config] and [kazoo.Config] are reduced to the fields the
    package assigns; the others keep what [sarama.NewConfig] and
    [kazoo.NewConfig] give them. *)

Record sarama_Config : Type := mkSaramaConfig {
  sarama_ChannelBufferSize : Z;
  sarama_ClientID : string;
  sarama_Producer_Compression : CompressionCodec;
  sarama_Producer_Flush_Frequency : Z;
  sarama_Producer_Flush_Bytes : Z;
  sarama_Producer_Retry_Backoff : Z;
  sarama_Producer_Retry_Max : Z;
  sarama_Producer_RequiredAcks : RequiredAcks
}.

Record kazoo_Config : Type := mkKazooConfig {
  kazoo_Chroot : string;
  kazoo_Timeout : Z
}.

(** [m[k]] as a value: the zero value of the element type when the map has
    no such key.  [CompressionNone] and [NoResponse] are the constants 0 of
    their types. *)
Definition index {V} (zero : V) (m : gmap string V) (k : string) : V :=
  match m !! k with
  | Some v => v
  | None => zero
  end.

Definition KazooCfg (p : Proxy) : kazoo_Config :=
  {| kazoo_Chroot := ZooKeeper_Chroot (ZooKeeper p);
     kazoo_Timeout := 15 * Second |}.

Definition SaramaProdCfg (p : Proxy) : sarama_Config :=
  {| sarama_ChannelBufferSize := Producer_ChannelBufferSize (Producer p);
     sarama_ClientID := ClientID p;
     sarama_Producer_Compression :=
       index CompressionNone compressionCodecs (Producer_Compression (Producer p));
     sarama_Producer_Flush_Frequency := Producer_FlushFrequency (Producer p);
     sarama_Producer_Flush_Bytes := Producer_FlushBytes (Producer p);
     sarama_Producer_Retry_Backoff := Producer_RetryBackoff (Producer p);
     sarama_Producer_Retry_Max := Producer_RetryMax (Producer p);
     sarama_Producer_RequiredAcks :=
       index NoResponse producerAcks (Producer_RequiredAcks (Producer p)) |}.

(** ** The client identifier *)

Module Identity.

(** [net.IP] is a slice of bytes, [nil] being the empty list. *)
Definition IP : Type := list Byte.byte.

Definition is_nil (ip : IP) : bool :=
match ip with
| [] => true
| _ :: _ => false
end.

(** An element of [net.InterfaceAddrs()]: a [*net.IPNet], of which only the
  address is read, or an address of another type. *)
Inductive Addr : Type :=
| IPNet (ip : IP)
| OtherAddr.

(** [fmt.Sprintf("%X", buffer)]: two upper-case hexadecimal digits a byte. *)
Definition hex_digit (n : N) : Ascii.ascii :=
match n with
| 0 => "0" | 1 => "1" | 2 => "2" | 3 => "3" | 4 => "4" | 5 => "5" | 6 => "6"
| 7 => "7" | 8 => "8" | 9 => "9" | 10 => "A" | 11 => "B" | 12 => "C"
| 13 => "D" | 14 => "E" | _ => "F"
end%char%N.

Fixpoint Sprintf_X (buffer : list Byte.byte) : string :=
match buffer with
| [] => ""
| b :: rest =>
    String (hex_digit (Byte.to_N b / 16))
      (String (hex_digit (Byte.to_N b mod 16)) (Sprintf_X rest))
end.

(** [strings.Replace(s, old, new, -1)] for [old] and [new] of one character
  each: every occurrence is replaced. *)
Fixpoint Replace (s : string) (old new : Ascii.ascii) : string :=
match s with
| EmptyString => EmptyString
| String c rest =>
    String (if Ascii.eqb c old then new else c) (Replace rest old new)
end.

(** [make([]byte, 8)] after [rand.Read]: the bytes that were read, the rest
  of the buffer left at zero. *)
Definition buffer_after_Read (read : list Byte.byte) : list Byte.byte :=
take 8 (read ++ replicate 8 Byte.x00).

Section Net.
(** [ip.IsLoopback()], [ip.To4()] ([nil] when the address is not IPv4) and
[ip.String()] of package [net]. *)
Variable IsLoopback : IP → bool.
Variable To4 : IP → IP.
Variable IP_String : IP → string.

(** The loop of [getIP] and what follows it, [ipv6] being the variable of
that name. *)
Fixpoint getIP_loop (interfaceAddrs : list Addr) (ipv6 : IP) : result IP :=
  match interfaceAddrs with
  | [] =>
  if negb (is_nil ipv6) then Ok ipv6
  else Err (errors_New "Unknown IP address")
  | interfaceAddr :: rest =>
  match interfaceAddr with
  | IPNet ip =>
      if negb (IsLoopback ip) then
        let ipv4 := To4 ip in
        if negb (is_nil ipv4) then Ok ipv4
        else getIP_loop rest ip
      else getIP_loop rest ipv6
  | OtherAddr => getIP_loop rest ipv6
  end
  end.

(** [InterfaceAddrs] is the result of [net.InterfaceAddrs()]. *)
Definition getIP (InterfaceAddrs : result (list Addr)) : result IP :=
  match InterfaceAddrs with
  | Err err => Err err
  | Ok interfaceAddrs => getIP_loop interfaceAddrs []
  end.

(** [Hostname] is the result of [os.Hostname()], [read] the bytes
[rand.Read] delivered, [now] the text of
[time.Now().UTC().Format(time.RFC3339)] and [pid] that of [os.Getpid()]. *)
Definition newClientID (Hostname : result string)
(InterfaceAddrs : result (list Addr)) (read : list Byte.byte)
(now : string) (pid : Z) : string :=
  let hostname :=
match Hostname with
| Ok hostname => hostname
| Err _ =>
    match getIP InterfaceAddrs with
    | Err _ => Sprintf_X (buffer_after_Read read)
    | Ok ip => IP_String ip
    end
end in
  let timestamp := Replace now ":"%char "."%char in
  "pixy_" +:+ hostname +:+ "_" +:+ timestamp +:+ "_" +:+ pretty pid.

(** An address that ends the loop of [getIP]: a [*net.IPNet] that is not
loopback and has an IPv4 form. *)
Definition usable_v4 (a : Addr) : bool :=
  match a with
  | IPNet ip => negb (IsLoopback ip) && negb (is_nil (To4 ip))
  | OtherAddr => false
  end.

(** The address the loop keeps in [ipv6] when it passes [a]. *)
Definition kept (a : Addr) : option IP :=
  match a with
  | IPNet ip => if IsLoopback ip then None else Some ip
  | OtherAddr => None
  end.

End Net.

(** [has_char c s]: the character [c] occurs in [s]. *)
Fixpoint has_char (c : Ascii.ascii) (s : string) : bool :=
match s with
| EmptyString => false
| String a rest => Ascii.eqb a c || has_char c rest
end.

(** The characters [0]-[9] and [A]-[F]. *)
Definition is_upper_hex (a : Ascii.ascii) : bool :=
let n := Ascii.N_of_ascii a in
((48 <=? n) && (n <=? 57) || (65 <=? n) && (n <=? 70))%N.

Fixpoint all_chars (P : Ascii.ascii → bool) (s : string) : bool :=
match s with
| EmptyString => true
| String a rest => P a && all_chars P rest
end.

End Identity.

(** ** The configuration package *)

Section Config.
(** [os.Getenv]: the value of an environment variable, empty when unset. *)
Variable Getenv : string → string.
(** [time.ParseDuration], used by the decoder for duration fields. *)
Variable ParseDuration : string → option Z.
(** What the decoder makes of a sequence given where a [MapSlice] is
    expected: it is left unspecified. *)
Variable sequence_MapSlice : list yaml → result MapSlice.
(** The result of the one call of [newClientID] made by a load (it depends
    on the host name, the clock and the process id). *)
Variable newClientID : string.
(** The order in which [range] visits the proxies of a map. *)
Variable range_Proxies : gmap string Proxy → list (string * Proxy).
Hypothesis range_Proxies_perm : ∀ m, range_Proxies m ≡ₚ map_to_list m.

(** *** Defaults *)

Definition newApp : App :=
  {| GRPCAddr := "0.0.0.0:19091";
     TCPAddr := "0.0.0.0:19092";
     UnixAddr := "";
     Proxies := ∅;
     DefaultCluster := "" |}.

Definition defaultProxyWithClientID (clientID : string) : Proxy :=
  let versionStr := Getenv "KAFKA_VERSION" in
  {| ClientID := clientID;
     ZooKeeper := {| ZooKeeper_SeedPeers := ["localhost:2181"];
                     ZooKeeper_Chroot := "" |};
     Kafka := {| Kafka_SeedPeers := ["localhost:9092"];
                 Kafka_Version :=
                   if has_key kafkaVersions versionStr then versionStr
                   else defaultKafkaVersion |};
     Producer := {| Producer_ChannelBufferSize := 4096;
                    Producer_Compression := defaultCompression;
                    Producer_FlushFrequency := 500 * Millisecond;
                    Producer_FlushBytes := 1024 * 1024;
                    Producer_RequiredAcks := defaultRequiredAcks;
                    Producer_RetryBackoff := 10 * Second;
                    Producer_RetryMax := 6;
                    Producer_ShutdownTimeout := 30 * Second |};
     Consumer := {| Consumer_AckTimeout := 15 * Second;
                    Consumer_ChannelBufferSize := 64;
                    Consumer_FetchBytes := 1024 * 1024;
                    Consumer_LongPollingTimeout := 3 * Second;
                    Consumer_OffsetsCommitInterval := 500 * Millisecond;
                    Consumer_RebalanceDelay := 250 * Millisecond;
                    Consumer_RegistrationTimeout := 20 * Second;
                    Consumer_RetryBackoff := 500 * Millisecond |} |}.


(** *** The structs as the decoder sees them

    One entry per field, under the key of its [yaml] tag. *)

Definition zero_Kafka : Kafka_t := mkKafka [] "".
Definition zero_ZooKeeper : ZooKeeper_t := mkZooKeeper [] "".
Definition zero_Producer : Producer_t := mkProducer 0 "" 0 0 0 0 "" 0.
Definition zero_Consumer : Consumer_t := mkConsumer 0 0 0 0 0 0 0 0.
Definition zero_Proxy : Proxy :=
  mkProxy "" zero_Kafka zero_ZooKeeper zero_Producer zero_Consumer.

Definition decode_Duration : yaml → result Z := Yaml.decode_Duration ParseDuration.

Definition Kafka_fields : Yaml.fields Kafka_t :=
  [ ("seed_peers", Yaml.leaf Yaml.decode_strings set_Kafka_SeedPeers);
    ("version", Yaml.leaf Yaml.decode_string set_Kafka_Version) ].

Definition ZooKeeper_fields : Yaml.fields ZooKeeper_t :=
  [ ("seed_peers", Yaml.leaf Yaml.decode_strings set_ZooKeeper_SeedPeers);
    ("chroot", Yaml.leaf Yaml.decode_string set_ZooKeeper_Chroot) ].

Definition Producer_fields : Yaml.fields Producer_t :=
  [ ("channel_buffer_size", Yaml.leaf Yaml.decode_int set_Producer_ChannelBufferSize);
    ("compression", Yaml.leaf Yaml.decode_string set_Producer_Compression);
    ("flush_bytes", Yaml.leaf Yaml.decode_int set_Producer_FlushBytes);
    ("flush_frequency", Yaml.leaf decode_Duration set_Producer_FlushFrequency);
    ("retry_backoff", Yaml.leaf decode_Duration set_Producer_RetryBackoff);
    ("retry_max", Yaml.leaf Yaml.decode_int set_Producer_RetryMax);
    ("required_acks", Yaml.leaf Yaml.decode_string set_Producer_RequiredAcks);
    ("shutdown_timeout", Yaml.leaf decode_Duration set_Producer_ShutdownTimeout) ].

Definition Consumer_fields : Yaml.fields Consumer_t :=
  [ ("ack_timeout", Yaml.leaf decode_Duration set_Consumer_AckTimeout);
    ("channel_buffer_size", Yaml.leaf Yaml.decode_int set_Consumer_ChannelBufferSize);
    ("fetch_bytes", Yaml.leaf Yaml.decode_int set_Consumer_FetchBytes);
    ("long_polling_timeout", Yaml.leaf decode_Duration set_Consumer_LongPollingTimeout);
    ("offsets_commit_interval",
      Yaml.leaf decode_Duration set_Consumer_OffsetsCommitInterval);
    ("rebalance_delay", Yaml.leaf decode_Duration set_Consumer_RebalanceDelay);
    ("registration_timeout",
      Yaml.leaf decode_Duration set_Consumer_RegistrationTimeout);
    ("retry_backoff", Yaml.leaf decode_Duration set_Consumer_RetryBackoff) ].

Definition Proxy_fields : Yaml.fields Proxy :=
  [ ("client_id", Yaml.leaf Yaml.decode_string set_ClientID);
    ("kafka", Yaml.sub zero_Kafka Kafka_fields Kafka set_Kafka);
    ("zoo_keeper", Yaml.sub zero_ZooKeeper ZooKeeper_fields ZooKeeper set_ZooKeeper);
    ("producer", Yaml.sub zero_Producer Producer_fields Producer set_Producer);
    ("consumer", Yaml.sub zero_Consumer Consumer_fields Consumer set_Consumer) ].

(** [yaml.Unmarshal(encoded, proxyCfg)] *)
Definition Unmarshal_Proxy (encoded : yaml) (proxyCfg : Proxy) : result Proxy :=
  Yaml.unmarshal_struct zero_Proxy Proxy_fields encoded proxyCfg.

(** [proxyProb] has the single field [Proxies], a [yaml.MapSlice] without a
    tag: its key is the field name in lower case. *)
Record proxyProb : Type := mkProxyProb { prob_Proxies : MapSlice }.

Definition decode_MapSlice (v : yaml) : result MapSlice :=
  match v with
  | YNull => Ok []
  | YMap items => Ok items
  | YSeq elems => sequence_MapSlice elems
  | _ => Err yaml_TypeError
  end.

Definition proxyProb_fields : Yaml.fields proxyProb :=
  [ ("proxies", Yaml.leaf decode_MapSlice (fun x _ => mkProxyProb x)) ].

(** [yaml.Unmarshal(data, &prob)], on the tree that [data] denotes. *)
Definition Unmarshal_proxyProb (data : yaml) (prob : proxyProb) : result proxyProb :=
  Yaml.unmarshal_struct (mkProxyProb []) proxyProb_fields data prob.

(** *** Validation of the application configuration *)

Fixpoint validate_range (entries : list (string * Proxy)) : option error :=
  match entries with
  | [] => None
  | (cluster, proxyCfg) :: rest =>
      match Proxy_validate proxyCfg with
      | Some err => Some (errors_Wrap err ("invalid config, cluster=" +:+ cluster))
      | None => validate_range rest
      end
  end.

Definition App_validate (a : App) : option error :=
  if bool_decide (size (Proxies a) = 0%nat) then
    Some (errors_New "at least on proxy must be configured")
  else validate_range (range_Proxies (Proxies a)).

(** *** Loading *)

(** [cluster, ok := proxyItem.Key.(string)]: when the key holds no string,
    [cluster] is the zero string. *)
Definition assert_string (key : yaml) : string * bool :=
  match key with
  | YStr s => (s, true)
  | _ => ("", false)
  end.

(** The body of [for _, proxyItem := range prob.Proxies], applied to the
    items in order. *)
Fixpoint FromYAML_loop (items : MapSlice) (appCfg : App) (clientID : string)
  : result App :=
  match items with
  | [] => Ok appCfg
  | proxyItem :: rest =>
      let '(cluster, ok) := assert_string proxyItem.1 in
      if negb ok then Err (errors_New ("invalid cluster, " +:+ cluster))
      else
        let encodedProxyCfg := Yaml.Marshal proxyItem.2 in
        let proxyCfg := defaultProxyWithClientID clientID in
        match Unmarshal_Proxy encodedProxyCfg proxyCfg with
        | Err err =>
            Err (errors_Wrap err ("failed to parse proxy config, cluster=" +:+ cluster))
        | Ok proxyCfg =>
            let appCfg :=
              mkApp (GRPCAddr appCfg) (TCPAddr appCfg) (UnixAddr appCfg)
                (<[cluster := proxyCfg]> (Proxies appCfg)) (DefaultCluster appCfg) in
            let appCfg :=
              if String.eqb (DefaultCluster appCfg) "" then
                mkApp (GRPCAddr appCfg) (TCPAddr appCfg) (UnixAddr appCfg)
                  (Proxies appCfg) cluster
              else appCfg in
            FromYAML_loop rest appCfg clientID
        end
  end.

Definition FromYAML (data : yaml) : result App :=
  match Unmarshal_proxyProb data (mkProxyProb []) with
  | Err err => Err (errors_Wrap err "failed to parse config")
  | Ok prob =>
      let appCfg := newApp in
      let clientID := newClientID in
      match FromYAML_loop (prob_Proxies prob) appCfg clientID with
      | Err err => Err err
      | Ok appCfg =>
          match App_validate appCfg with
          | Some err => Err (errors_Wrap err "invalid config parameter")
          | None => Ok appCfg
          end
      end
  end.


(** *** Ready-made configurations *)

Definition DefaultProxy : Proxy := defaultProxyWithClientID newClientID.

Definition DefaultApp (cluster : string) : App :=
  let appCfg := newApp in
  let proxyCfg := DefaultProxy in
  mkApp (GRPCAddr appCfg) (TCPAddr appCfg) (UnixAddr appCfg)
    (<[cluster := proxyCfg]> (Proxies appCfg)) cluster.

(** *** Loading a file

    [os.Open] and [ioutil.ReadAll]; the bytes read are represented by the
    tree they denote. *)
Variable File : Type.
Variable os_Open : string → result File.
Variable ioutil_ReadAll : File → result yaml.

Definition FromYAMLFile (filename : string) : result App :=
  match os_Open filename with
  | Err err => Err err
  | Ok configFile =>
      match ioutil_ReadAll configFile with
      | Err err => Err err
      | Ok data =>
          match FromYAML data with
          | Err err => Err err
          | Ok appCfg => Ok appCfg
          end
      end
  end.

(** ** Notions of the specification *)

(** *** Messages *)

Fixpoint has_prefix (x msg : string) : bool :=
  match x, msg with
  | EmptyString, _ => true
  | String a x', String b msg' => bool_decide (a = b) && has_prefix x' msg'
  | String _ _, EmptyString => false
  end.

(** [contains x msg] decides [names msg x]. *)
Fixpoint contains (x msg : string) : bool :=
  has_prefix x msg ||
  match msg with
  | EmptyString => false
  | String _ msg' => contains x msg'
  end.

(** *** The supported sets, as the specification lists them *)

Definition supported_versions : list string :=
  ["0.8.2.2"; "0.9.0.0"; "0.9.0.1"; "0.10.0.0"; "0.10.0.1"; "0.10.1.0"].
Definition supported_compressions : list string :=
  ["none"; "gzip"; "snappy"; "lz4"].
Definition supported_acks : list string :=
  ["no_response"; "wait_for_local"; "wait_for_all"].

(** *** The per-proxy checks in the order of the specification

    A check is the requirement it makes and the error reported when the
    requirement does not hold. *)

Record check : Type := mkCheck {
  holds : Proxy → bool;
  report : Proxy → error
}.

Definition ack_timeout_error : error :=
  errors_New "consumer.ack_timeout must be < consumer.registration_timeout".

Definition producer_checks : list check :=
  [ mkCheck (fun p => bool_decide (Kafka_Version (Kafka p) ∈ supported_versions))
      (fun p => errors_New ("Bad kafka.version: " +:+ Kafka_Version (Kafka p)));
    mkCheck (fun p => 0 <? Producer_ChannelBufferSize (Producer p))
      (fun _ => errors_New "producer.channel_buffer_size must be > 0");
    mkCheck (fun p => 0 <=? Producer_FlushBytes (Producer p))
      (fun _ => errors_New "producer.flush_bytes must be >= 0");
    mkCheck (fun p => 0 <=? Producer_FlushFrequency (Producer p))
      (fun _ => errors_New "producer.flush_frequency must be >= 0");
    mkCheck (fun p => 0 <? Producer_RetryBackoff (Producer p))
      (fun _ => errors_New "producer.retry_backoff must be > 0");
    mkCheck (fun p => 0 <? Producer_RetryMax (Producer p))
      (fun _ => errors_New "producer.retry_max must be > 0");
    mkCheck (fun p => 0 <=? Producer_ShutdownTimeout (Producer p))
      (fun _ => errors_New "producer.shutdown_timeout must be >= 0");
    mkCheck
      (fun p => bool_decide (Producer_Compression (Producer p) ∈ supported_compressions))
      (fun p =>
         errors_New ("Bad producer.compression: " +:+ Producer_Compression (Producer p)));
    mkCheck
      (fun p => bool_decide (Producer_RequiredAcks (Producer p) ∈ supported_acks))
      (fun p =>
         errors_New
           ("Bad producer.required_acks: " +:+ Producer_RequiredAcks (Producer p))) ].

Definition consumer_checks : list check :=
  [ mkCheck
      (fun p =>
         Consumer_AckTimeout (Consumer p) <? Consumer_RegistrationTimeout (Consumer p))
      (fun _ => ack_timeout_error);
    mkCheck (fun p => 0 <? Consumer_ChannelBufferSize (Consumer p))
      (fun _ => errors_New "consumer.channel_buffer_size must be > 0");
    mkCheck (fun p => 0 <? Consumer_FetchBytes (Consumer p))
      (fun _ => errors_New "consumer.fetch_bytes must be > 0");
    mkCheck (fun p => 0 <? Consumer_LongPollingTimeout (Consumer p))
      (fun _ => errors_New "consumer.long_polling_timeout must be > 0");
    mkCheck (fun p => 0 <? Consumer_OffsetsCommitInterval (Consumer p))
      (fun _ => errors_New "consumer.offsets_commit_interval must be > 0");
    mkCheck (fun p => 0 <? Consumer_RebalanceDelay (Consumer p))
      (fun _ => errors_New "consumer.rebalance_delay must be > 0");
    mkCheck (fun p => 0 <? Consumer_RegistrationTimeout (Consumer p))
      (fun _ => errors_New "consumer.registration_timeout must be > 0");
    mkCheck (fun p => 0 <? Consumer_RetryBackoff (Consumer p))
      (fun _ => errors_New "consumer.retry_backoff must be > 0") ].

Definition checks_in_order : list check := producer_checks ++ consumer_checks.

(** The error of the first check, in list order, whose requirement fails;
    the checks after it are not looked at. *)
Fixpoint first_violation (cs : list check) (p : Proxy) : option error :=
  match cs with
  | [] => None
  | c :: rest => if holds c p then first_violation rest p else Some (report c p)
  end.

(** *** The fields of a proxy configuration

    The leaves of [Proxy], grouped as the struct nests them.  Each has the
    key under which a document gives it, the kind of value it holds, and
    a reading out of a record. *)

Inductive value : Type :=
| VString (s : string)
| VStrings (l : list string)
| VInt (n : Z).

Inductive kind : Type := KString | KStrings | KInt | KDuration.

Definition result_map {A B} (f : A → B) (r : result A) : result B :=
  match r with
  | Ok a => Ok (f a)
  | Err e => Err e
  end.

(** Decoder side: what the decoder stores for a node in a field of the
    given kind (the decoders of the module [Yaml] under one type). *)
Definition decode_value (k : kind) (v : yaml) : result value :=
  match k with
  | KString => result_map VString (Yaml.decode_string v)
  | KStrings => result_map VStrings (Yaml.decode_strings v)
  | KInt => result_map VInt (Yaml.decode_int v)
  | KDuration => result_map VInt (decode_Duration v)
  end.

Inductive kafka_field : Type := kafka_seed_peers | kafka_version.

Inductive zoo_keeper_field : Type := zoo_keeper_seed_peers | zoo_keeper_chroot.

Inductive producer_field : Type :=
| producer_channel_buffer_size | producer_compression | producer_flush_bytes
| producer_flush_frequency | producer_retry_backoff | producer_retry_max
| producer_required_acks | producer_shutdown_timeout.

Inductive consumer_field : Type :=
| consumer_ack_timeout | consumer_channel_buffer_size | consumer_fetch_bytes
| consumer_long_polling_timeout | consumer_offsets_commit_interval
| consumer_rebalance_delay | consumer_registration_timeout | consumer_retry_backoff.

Inductive field : Type :=
| client_id
| kafka (f : kafka_field)
| zoo_keeper (f : zoo_keeper_field)
| producer (f : producer_field)
| consumer (f : consumer_field).

Definition kafka_key (f : kafka_field) : string :=
  match f with
  | kafka_seed_peers => "seed_peers"
  | kafka_version => "version"
  end.

Definition kafka_kind (f : kafka_field) : kind :=
  match f with
  | kafka_seed_peers => KStrings
  | kafka_version => KString
  end.

Definition Kafka_value (f : kafka_field) (r : Kafka_t) : value :=
  match f with
  | kafka_seed_peers => VStrings (Kafka_SeedPeers r)
  | kafka_version => VString (Kafka_Version r)
  end.

Definition zoo_keeper_key (f : zoo_keeper_field) : string :=
  match f with
  | zoo_keeper_seed_peers => "seed_peers"
  | zoo_keeper_chroot => "chroot"
  end.

Definition zoo_keeper_kind (f : zoo_keeper_field) : kind :=
  match f with
  | zoo_keeper_seed_peers => KStrings
  | zoo_keeper_chroot => KString
  end.

Definition ZooKeeper_value (f : zoo_keeper_field) (r : ZooKeeper_t) : value :=
  match f with
  | zoo_keeper_seed_peers => VStrings (ZooKeeper_SeedPeers r)
  | zoo_keeper_chroot => VString (ZooKeeper_Chroot r)
  end.

Definition producer_key (f : producer_field) : string :=
  match f with
  | producer_channel_buffer_size => "channel_buffer_size"
  | producer_compression => "compression"
  | producer_flush_bytes => "flush_bytes"
  | producer_flush_frequency => "flush_frequency"
  | producer_retry_backoff => "retry_backoff"
  | producer_retry_max => "retry_max"
  | producer_required_acks => "required_acks"
  | producer_shutdown_timeout => "shutdown_timeout"
  end.

Definition producer_kind (f : producer_field) : kind :=
  match f with
  | producer_channel_buffer_size | producer_flush_bytes | producer_retry_max => KInt
  | producer_compression | producer_required_acks => KString
  | producer_flush_frequency | producer_retry_backoff | producer_shutdown_timeout =>
      KDuration
  end.

Definition Producer_value (f : producer_field) (r : Producer_t) : value :=
  match f with
  | producer_channel_buffer_size => VInt (Producer_ChannelBufferSize r)
  | producer_compression => VString (Producer_Compression r)
  | producer_flush_bytes => VInt (Producer_FlushBytes r)
  | producer_flush_frequency => VInt (Producer_FlushFrequency r)
  | producer_retry_backoff => VInt (Producer_RetryBackoff r)
  | producer_retry_max => VInt (Producer_RetryMax r)
  | producer_required_acks => VString (Producer_RequiredAcks r)
  | producer_shutdown_timeout => VInt (Producer_ShutdownTimeout r)
  end.

Definition consumer_key (f : consumer_field) : string :=
  match f with
  | consumer_ack_timeout => "ack_timeout"
  | consumer_channel_buffer_size => "channel_buffer_size"
  | consumer_fetch_bytes => "fetch_bytes"
  | consumer_long_polling_timeout => "long_polling_timeout"
  | consumer_offsets_commit_interval => "offsets_commit_interval"
  | consumer_rebalance_delay => "rebalance_delay"
  | consumer_registration_timeout => "registration_timeout"
  | consumer_retry_backoff => "retry_backoff"
  end.

Definition consumer_kind (f : consumer_field) : kind :=
  match f with
  | consumer_channel_buffer_size | consumer_fetch_bytes => KInt
  | _ => KDuration
  end.

Definition Consumer_value (f : consumer_field) (r : Consumer_t) : value :=
  match f with
  | consumer_ack_timeout => VInt (Consumer_AckTimeout r)
  | consumer_channel_buffer_size => VInt (Consumer_ChannelBufferSize r)
  | consumer_fetch_bytes => VInt (Consumer_FetchBytes r)
  | consumer_long_polling_timeout => VInt (Consumer_LongPollingTimeout r)
  | consumer_offsets_commit_interval => VInt (Consumer_OffsetsCommitInterval r)
  | consumer_rebalance_delay => VInt (Consumer_RebalanceDelay r)
  | consumer_registration_timeout => VInt (Consumer_RegistrationTimeout r)
  | consumer_retry_backoff => VInt (Consumer_RetryBackoff r)
  end.

(** Where a document gives the field: the keys from the block down. *)
Definition path (f : field) : list string :=
  match f with
  | client_id => ["client_id"]
  | kafka g => ["kafka"; kafka_key g]
  | zoo_keeper g => ["zoo_keeper"; zoo_keeper_key g]
  | producer g => ["producer"; producer_key g]
  | consumer g => ["consumer"; consumer_key g]
  end.

Definition kind_of (f : field) : kind :=
  match f with
  | client_id => KString
  | kafka g => kafka_kind g
  | zoo_keeper g => zoo_keeper_kind g
  | producer g => producer_kind g
  | consumer g => consumer_kind g
  end.

Definition field_value (f : field) (p : Proxy) : value :=
  match f with
  | client_id => VString (ClientID p)
  | kafka g => Kafka_value g (Kafka p)
  | zoo_keeper g => ZooKeeper_value g (ZooKeeper p)
  | producer g => Producer_value g (Producer p)
  | consumer g => Consumer_value g (Consumer p)
  end.

(** *** What an override block sets

    [has_name name k]: the key [k] of an item reads as [name]. *)
Definition has_name (name : string) (k : yaml) : bool :=
  match Yaml.decode_name k with
  | Ok n => String.eqb n name
  | Err _ => false
  end.

(** Decoder side: the nodes the decoder applies to the field at [path],
    in the order in which it applies them.  A null met in place of a
    mapping zeroes the struct, so it reaches every field below it. *)
Fixpoint applied_at (path : list string) (v : yaml) : list yaml :=
  match path with
  | [] => [v]
  | name :: path' =>
      match v with
      | YNull => [YNull]
      | YMap items =>
          flat_map (fun item : MapItem =>
                      if has_name name item.1 then applied_at path' item.2 else [])
            items
      | _ => []
      end
  end.

(** Specification side: the nodes a block gives for the field at [path],
    in document order.  Only mappings are descended into: a block in which
    a section is null gives nothing for the fields of the section.  The
    block leaves the field unset when the list is empty, and sets it to the
    last node of the list otherwise. *)
Fixpoint nodes_of (path : list string) (v : yaml) : list yaml :=
  match path with
  | [] => [v]
  | name :: path' =>
      match v with
      | YMap items =>
          flat_map (fun item : MapItem =>
                      if has_name name item.1 then nodes_of path' item.2 else [])
            items
      | _ => []
      end
  end.

(** No item of the block gives null for a section. *)
Definition no_null_section (items : MapSlice) : bool :=
  forallb (fun item : MapItem =>
             match item.2 with
             | YNull =>
                 negb (has_name "kafka" item.1 || has_name "zoo_keeper" item.1 ||
                       has_name "producer" item.1 || has_name "consumer" item.1)
             | _ => true
             end) items.

(** Specification side: the value a node holds for a field of the given
    kind, when the node is of the type of the field: a string for a string
    field, an integer for a count, a sequence of strings for a list of
    peers, and an integer of nanoseconds or a text that
    [time.ParseDuration] reads for a duration.  It is written without the
    decoder. *)
Fixpoint strings_of (elems : list yaml) : option (list string) :=
  match elems with
  | [] => Some []
  | YStr s :: rest =>
      match strings_of rest with
      | Some l => Some (s :: l)
      | None => None
      end
  | _ :: _ => None
  end.

Definition override_value (k : kind) (w : yaml) : option value :=
  match k, w with
  | KString, YStr s => Some (VString s)
  | KStrings, YSeq elems =>
      match strings_of elems with
      | Some l => Some (VStrings l)
      | None => None
      end
  | KInt, YInt n => Some (VInt n)
  | KDuration, YInt n => Some (VInt n)
  | KDuration, YStr s =>
      match ParseDuration s with
      | Some d => Some (VInt d)
      | None => None
      end
  | _, _ => None
  end.

(** The block a list of items gives for a cluster: that of the last item
    under the cluster's name. *)
Fixpoint block_of (cluster : string) (items : MapSlice) : option yaml :=
  match items with
  | [] => None
  | (k, v) :: rest =>
      match block_of cluster rest with
      | Some b => Some b
      | None =>
          match k with
          | YStr c => if String.eqb c cluster then Some v else None
          | _ => None
          end
      end
  end.

(** [set] stores, in the part of the record read by [get], the last node
    selected by [sel], and leaves that part alone when [sel] selects
    nothing. *)
Definition tracks {T} (get : T → value) (dec : yaml → result value)
    (sel : yaml → list yaml) (set : Yaml.setter T) : Prop :=
  ∀ v out out', set v out = Ok out' →
    match last (sel v) with
    | Some w => dec w = Ok (get out')
    | None => get out' = get out
    end.

(** *** The merge, item by item

    [merged clientID item entry]: the item has the string key [entry.1],
    and its block, decoded onto a fresh default, gives [entry.2]. *)
Definition merged (clientID : string) (item : MapItem) (entry : string * Proxy) : Prop :=
  item.1 = YStr entry.1 ∧
  Unmarshal_Proxy (Yaml.Marshal item.2) (defaultProxyWithClientID clientID) = Ok entry.2.

(** Steps 4 and 5 of the merge: the entry goes into the mapping, and a
    configuration without a default cluster takes the entry's name. *)
Definition add_proxy (appCfg : App) (entry : string * Proxy) : App :=
  mkApp (GRPCAddr appCfg) (TCPAddr appCfg) (UnixAddr appCfg)
    (<[entry.1 := entry.2]> (Proxies appCfg))
    (if String.eqb (DefaultCluster appCfg) "" then entry.1 else DefaultCluster appCfg).

(** The first name of the list that is not empty, or the empty name. *)
Fixpoint first_nonempty (clusters : list string) : string :=
  match clusters with
  | [] => ""
  | c :: rest => if String.eqb c "" then first_nonempty rest else c
  end.

(** The names of the items in document order (an item whose key holds no
    string has none). *)
Definition cluster_names (items : MapSlice) : list string :=
  omap (fun item : MapItem =>
          match item.1 with
          | YStr c => Some c
          | _ => None
          end) items.

(** *** Sample inputs *)

Definition no_env : string → string := fun _ => "".
Definition no_durations : string → option Z := fun _ => None.
Definition no_sequences : list yaml → result MapSlice := fun _ => Err yaml_TypeError.

(** A reading of durations that knows the text [25s] only. *)
Definition sample_durations : string → option Z :=
  fun s => if String.eqb s "25s" then Some (25 * Second) else None.

(** [{proxies: {prod: {kafka: {version: "0.10.1.0"}}}}] *)
Definition prod_block : yaml :=
  YMap [(YStr "kafka", YMap [(YStr "version", YStr "0.10.1.0")])].
Definition prod_doc : yaml :=
  YMap [(YStr "proxies", YMap [(YStr "prod", prod_block)])].

(** [{proxies: {prod: {kafka: {version: "9.9.9"}}}}] *)
Definition bad_version_doc : yaml :=
  YMap [(YStr "proxies",
         YMap [(YStr "prod", YMap [(YStr "kafka", YMap [(YStr "version", YStr "9.9.9")])])])].

(** [{proxies: {prod: {consumer: {ack_timeout: 25s}}}}] *)
Definition late_ack_doc : yaml :=
  YMap [(YStr "proxies",
         YMap [(YStr "prod",
                YMap [(YStr "consumer", YMap [(YStr "ack_timeout", YStr "25s")])])])].

(** [{proxies: {"": {}, b: {}}}] *)
Definition empty_first_doc : yaml :=
  YMap [(YStr "proxies", YMap [(YStr "", YMap []); (YStr "b", YMap [])])].

(** [{default_cluster: x, proxies: {"": {}, b: {}}}] *)
Definition empty_first_doc_with_default : yaml :=
  YMap [(YStr "default_cluster", YStr "x");
        (YStr "proxies", YMap [(YStr "", YMap []); (YStr "b", YMap [])])].

(** [{proxies: {1: {}}}] *)
Definition int_key_doc : yaml :=
  YMap [(YStr "proxies", YMap [(YInt 1, YMap [])])].

(** [{proxies: {a: {}, b: {kafka: []}}}]: the block of [b] does not decode. *)
Definition bad_block_doc : yaml :=
  YMap [(YStr "proxies",
         YMap [(YStr "a", YMap []); (YStr "b", YMap [(YStr "kafka", YSeq [])])])].

(** The default proxy with version [0.10.1.0]. *)
Definition prod_proxy (d : Proxy) : Proxy :=
  set_Kafka (set_Kafka_Version "0.10.1.0" (Kafka d)) d.

(** The default proxy with both timeouts at 20 s. *)
Definition equal_timeouts (d : Proxy) : Proxy :=
  set_Consumer (set_Consumer_AckTimeout (20 * Second) (Consumer d)) d.

(** The same with the unsupported version [9.9.9]. *)
Definition bad_version_equal_timeouts (d : Proxy) : Proxy :=
  set_Kafka (set_Kafka_Version "9.9.9" (Kafka d)) (equal_timeouts d).

(** [{proxies: {prod: {zoo_keeper: ~}}}] *)
Definition null_section_doc : yaml :=
  YMap [(YStr "proxies", YMap [(YStr "prod", YMap [(YStr "zoo_keeper", YNull)])])].

(** [{proxies: {1: {}, prod: {kafka: []}}}]: the block of [prod] does not
    decode, and the key before it holds no string. *)
Definition key_then_bad_block_doc : yaml :=
  YMap [(YStr "proxies",
         YMap [(YInt 1, YMap []); (YStr "prod", YMap [(YStr "kafka", YSeq [])])])].

(** [{proxies: {prod: {consumer: {ack_timeout: 20000000000}}}}] *)
Definition equal_timeouts_doc : yaml :=
  YMap [(YStr "proxies",
         YMap [(YStr "prod",
                YMap [(YStr "consumer", YMap [(YStr "ack_timeout", YInt (20 * Second))])])])].

(** [{grpc_addr: addr, proxies: {a: {}, b: {}, a: {}}}] *)
Definition three_items_doc : yaml :=
  YMap [(YStr "grpc_addr", YStr "localhost:1");
        (YStr "proxies",
         YMap [(YStr "a", YMap []); (YStr "b", YMap []); (YStr "a", YMap [])])].

(** [{proxies: {prod: ~}}] *)
Definition null_block_doc : yaml :=
  YMap [(YStr "proxies", YMap [(YStr "prod", YNull)])].

(** A file system with the single file [config.yaml], which holds
    [prod_doc]. *)
Definition sample_Open (filename : string) : result string :=
  if String.eqb filename "config.yaml" then Ok filename
  else Err (errors_New "open: no such file or directory").
Definition sample_ReadAll (configFile : string) : result yaml := Ok prod_doc.

(** Addresses of four or sixteen bytes: loopback when the first byte is
    127, with an IPv4 form when four bytes long. *)
Definition sample_IsLoopback (ip : Identity.IP) : bool :=
  match ip with
  | Byte.x7f :: _ => true
  | _ => false
  end.
Definition sample_To4 (ip : Identity.IP) : Identity.IP :=
  if Nat.eqb (length ip) 4 then ip else [].
Definition sample_IP_String (ip : Identity.IP) : string := "addr".

Definition loopback_v4 : Identity.IP := [Byte.x7f; Byte.x00; Byte.x00; Byte.x01].
Definition lan_v4 : Identity.IP := [Byte.xc0; Byte.xa8; Byte.x00; Byte.x02].
Definition global_v6 : Identity.IP :=
  ([Byte.x20; Byte.x01; Byte.x0d; Byte.xb8] ++ replicate 12 Byte.x01)%list.

(** *** Statements of the specification that do not hold as they stand *)

(** The rule of the acknowledgment timeout as the specification states it,
    for one proxy: a proxy whose acknowledgment timeout is not below its
    registration timeout is rejected with an error naming both fields. *)
Definition ack_error_names_both_fields (p : Proxy) : Prop :=
  Consumer_RegistrationTimeout (Consumer p) ≤ Consumer_AckTimeout (Consumer p) →
  ∃ e, Proxy_validate p = Some e ∧
       names (Error e) "consumer.ack_timeout" ∧
       names (Error e) "consumer.registration_timeout".

(** The merge law as the specification states it, for one cluster of one
    document: a field the block leaves unset has the default, a field it
    sets has the value of the node. *)
Definition merge_law_as_stated (data : yaml) (cluster : string) : Prop :=
  ∀ prob cfg block,
    Unmarshal_proxyProb data (mkProxyProb []) = Ok prob →
    block_of cluster (prob_Proxies prob) = Some block →
    FromYAML data = Ok cfg →
    ∃ p, Proxies cfg !! cluster = Some p ∧
      ∀ f, match last (nodes_of (path f) block) with
           | None =>
               field_value f p = field_value f (defaultProxyWithClientID newClientID)
           | Some w => ∀ v, override_value (kind_of f) w = Some v → field_value f p = v
           end.

(** All or nothing as the specification states it, for one document: when
    the block of a cluster does not decode, the load fails with an error
    that names the cluster. *)
Definition decode_failure_names_cluster (data : yaml) : Prop :=
  ∀ prob c block y,
    Unmarshal_proxyProb data (mkProxyProb []) = Ok prob →
    (YStr c, block) ∈ prob_Proxies prob →
    Unmarshal_Proxy (Yaml.Marshal block) (defaultProxyWithClientID newClientID) = Err y →
    ∃ e, FromYAML data = Err e ∧ names (Error e) c.

(** *** The outcomes of a load *)

Definition load_outcome (data : yaml) : Prop :=
  match FromYAML data with
  | Ok cfg =>
      (* every item was merged, the configuration holds them all, and the
         validator accepted it *)
      ∃ prob entries,
        Unmarshal_proxyProb data (mkProxyProb []) = Ok prob ∧
        Forall2 (merged newClientID) (prob_Proxies prob) entries ∧
        cfg = foldl add_proxy newApp entries ∧
        App_validate cfg = None
  | Err e =>
      (* the document itself did not decode *)
      (∃ y, Unmarshal_proxyProb data (mkProxyProb []) = Err y ∧
            e = errors_Wrap y "failed to parse config") ∨
      ∃ prob, Unmarshal_proxyProb data (mkProxyProb []) = Ok prob ∧
        ((* a key that holds no string *)
         (e = errors_New "invalid cluster, " ∧
          ∃ k v, (k, v) ∈ prob_Proxies prob ∧ ∀ c, k ≠ YStr c) ∨
         (* a block that does not decode *)
         (∃ c block y,
            (YStr c, block) ∈ prob_Proxies prob ∧
            Unmarshal_Proxy (Yaml.Marshal block) (defaultProxyWithClientID newClientID)
              = Err y ∧
            e = errors_Wrap y ("failed to parse proxy config, cluster=" +:+ c) ∧
            names (Error e) c) ∨
         (* every item was merged, and the validator rejected the result *)
         (∃ entries v,
            Forall2 (merged newClientID) (prob_Proxies prob) entries ∧
            App_validate (foldl add_proxy newApp entries) = Some v ∧
            e = errors_Wrap v "invalid config parameter" ∧
            (entries = [] ∨
             ∃ c p e',
               Proxies (foldl add_proxy newApp entries) !! c = Some p ∧
               Proxy_validate p = Some e' ∧
               v = errors_Wrap e' ("invalid config, cluster=" +:+ c) ∧
               names (Error e) c)))
  end.

(** ** Properties *)

(** *** Messages *)

Lemma has_prefix_spec x msg :
  has_prefix x msg = true ↔ ∃ post, msg = x +:+ post.
Proof.
  revert msg. induction x as [|a x IH]; intros msg; simpl.
  - split; [intros _; by exists msg | done].
  - destruct msg as [|b msg].
    + split; [done | intros [post Hp]; discriminate].
    + rewrite andb_true_iff, bool_decide_eq_true, IH. split.
      * intros [-> [post ->]]. by exists post.
      * intros [post Hp]. injection Hp as -> ->. split; [done | by exists post].
Qed.

Lemma contains_spec x msg : contains x msg = true ↔ names msg x.
Proof.
  unfold names. induction msg as [|b msg IH]; simpl.
  - rewrite orb_false_r, has_prefix_spec. split.
    + intros [post Hp]. by exists "", post.
    + intros [pre [post Hp]]. destruct pre; [by exists post | discriminate].
  - rewrite orb_true_iff, has_prefix_spec, IH. split.
    + intros [[post Hp] | [pre [post Hp]]].
      * by exists "", post.
      * exists (String b pre), post. simpl. by rewrite Hp.
    + intros [pre [post Hp]]. destruct pre as [|c pre]; simpl in Hp.
      * left. by exists post.
      * right. injection Hp as -> ->. by exists pre, post.
Qed.


(** *** The tables of supported values *)

Ltac has_key_cases Hin Hnin :=
  unfold has_key; rewrite bool_decide_decide;
  match goal with
  | |- context [decide (?v ∈ ?l)] => destruct (decide (v ∈ l)) as [Hin | Hnin]
  end;
  [ repeat (apply elem_of_cons in Hin as [-> | Hin]; [reflexivity |]);
    by apply elem_of_nil in Hin
  | repeat (apply not_elem_of_cons in Hnin as [? Hnin]) ].

Lemma has_key_kafkaVersions v :
  has_key kafkaVersions v = bool_decide (v ∈ supported_versions).
Proof.
  has_key_cases Hin Hnin. unfold kafkaVersions.
  by rewrite !lookup_insert_ne, lookup_empty.
Qed.

Lemma has_key_compressionCodecs v :
  has_key compressionCodecs v = bool_decide (v ∈ supported_compressions).
Proof.
  has_key_cases Hin Hnin. unfold compressionCodecs.
  by rewrite !lookup_insert_ne, lookup_empty.
Qed.

Lemma has_key_producerAcks v :
  has_key producerAcks v = bool_decide (v ∈ supported_acks).
Proof.
  has_key_cases Hin Hnin. unfold producerAcks.
  by rewrite !lookup_insert_ne, lookup_empty.
Qed.

(** *** The validator of one proxy *)

Lemma leb_0_r x : (x <=? 0) = negb (0 <? x).
Proof. destruct (Z.ltb_spec 0 x), (Z.leb_spec x 0); simpl; lia. Qed.

Lemma ltb_0_r x : (x <? 0) = negb (0 <=? x).
Proof. destruct (Z.leb_spec 0 x), (Z.ltb_spec x 0); simpl; lia. Qed.

Lemma geb_ltb x y : (x >=? y) = negb (x <? y).
Proof. rewrite Z.geb_leb. destruct (Z.ltb_spec x y), (Z.leb_spec y x); simpl; lia. Qed.

Lemma if_negb {A} (b : bool) (x y : A) : (if negb b then x else y) = if b then y else x.
Proof. by destruct b. Qed.

Lemma first_violation_split (before after : list check) c p :
  Forall (fun c' => holds c' p = true) before →
  holds c p = false →
  first_violation (before ++ c :: after)%list p = Some (report c p).
Proof.
  intros Hbefore Hc. induction Hbefore as [|c' before Hc' _ IH]; simpl.
  - by rewrite Hc.
  - by rewrite Hc'.
Qed.

Lemma first_violation_None cs p :
  first_violation cs p = None ↔ Forall (fun c => holds c p = true) cs.
Proof.
  induction cs as [|c cs IH]; simpl.
  - split; [constructor | done].
  - destruct (holds c p) eqn:Hc.
    + rewrite IH. split; [by constructor | by inversion 1].
    + split; [done |]. inversion 1; congruence.
Qed.

Lemma Proxy_validate_checks (p : Proxy) :
  Proxy_validate p = first_violation checks_in_order p.
Proof.
  unfold Proxy_validate. simpl.
  rewrite has_key_kafkaVersions, has_key_compressionCodecs, has_key_producerAcks.
  rewrite !leb_0_r, !ltb_0_r, geb_ltb, !if_negb.
  reflexivity.
Qed.

Lemma Proxy_validate_default (clientID : string) :
  Proxy_validate (defaultProxyWithClientID clientID) = None.
Proof.
  unfold Proxy_validate. simpl.
  assert (has_key kafkaVersions
            (if has_key kafkaVersions (Getenv "KAFKA_VERSION")
             then Getenv "KAFKA_VERSION" else defaultKafkaVersion) = true) as ->.
  { destruct (has_key kafkaVersions (Getenv "KAFKA_VERSION")) eqn:E;
      [exact E | reflexivity]. }
  reflexivity.
Qed.

(** *** The decoder: what a struct holds after a mapping was applied *)

Lemma field_by_name_Forall {T} (P : string → Yaml.setter T → Prop) tbl :
  Forall (fun entry => P entry.1 entry.2) tbl →
  ∀ n set, Yaml.field_by_name tbl n = Some set → P n set.
Proof.
  induction 1 as [|[key set'] tbl Hhd _ IH]; intros n set; simpl; [done |].
  destruct (String.eqb key n) eqn:E; [| by apply IH].
  apply String.eqb_eq in E as ->. by intros [= <-].
Qed.

Lemma tracks_leaf_hit {T A} (inj : A → value) (get : T → value) dec
    (decA : yaml → result A) (upd : A → T → T) :
  (∀ a t, get (upd a t) = inj a) →
  (∀ v, dec v = result_map inj (decA v)) →
  tracks get dec (applied_at []) (Yaml.leaf decA upd).
Proof.
  intros Hget Hdec v out out'. unfold Yaml.leaf. simpl.
  rewrite Hdec. destruct (decA v) as [a|]; [| done].
  intros [= <-]. simpl. by rewrite Hget.
Qed.

Lemma tracks_leaf_miss {T A} (get : T → value) dec
    (decA : yaml → result A) (upd : A → T → T) :
  (∀ a t, get (upd a t) = get t) →
  tracks get dec (fun _ => []) (Yaml.leaf decA upd).
Proof.
  intros Hget v out out'. unfold Yaml.leaf. simpl.
  destruct (decA v) as [a|]; [| done]. intros [= <-]. apply Hget.
Qed.

Lemma tracks_sub_hit {T S} (getS : S → value) (get : T → value) dec sel
    (zero : S) tbl (g : T → S) (upd : S → T → T) :
  (∀ t, get t = getS (g t)) →
  (∀ s t, g (upd s t) = s) →
  tracks getS dec sel (Yaml.unmarshal_struct zero tbl) →
  tracks get dec sel (Yaml.sub zero tbl g upd).
Proof.
  intros Hget Hupd Hin v out out'. unfold Yaml.sub.
  destruct (Yaml.unmarshal_struct zero tbl v (g out)) as [s|] eqn:E; [| done].
  intros [= <-]. specialize (Hin _ _ _ E).
  rewrite !Hget, Hupd. exact Hin.
Qed.

Lemma tracks_sub_miss {T S} (get : T → value) dec
    (zero : S) tbl (g : T → S) (upd : S → T → T) :
  (∀ s t, get (upd s t) = get t) →
  tracks get dec (fun _ => []) (Yaml.sub zero tbl g upd).
Proof.
  intros Hget v out out'. unfold Yaml.sub.
  destruct (Yaml.unmarshal_struct zero tbl v (g out)) as [s|]; [| done].
  intros [= <-]. apply Hget.
Qed.

(** The items of a mapping, applied in order: the last node given for the
    part decides, and without any the part is as before. *)
Lemma mappingStruct_tracks {T} (get : T → value) dec name path' (tbl : Yaml.fields T) :
  is_Some (Yaml.field_by_name tbl name) →
  (∀ n set, Yaml.field_by_name tbl n = Some set →
     tracks get dec (if String.eqb n name then applied_at path' else fun _ => []) set) →
  ∀ items out out', Yaml.mappingStruct tbl items out = Ok out' →
    match last (applied_at (name :: path') (YMap items)) with
    | Some w => dec w = Ok (get out')
    | None => get out' = get out
    end.
Proof.
  intros Hname Htbl items. induction items as [|[k v] rest IH]; intros out out'; simpl.
  - by intros [= <-].
  - unfold has_name. destruct (Yaml.decode_name k) as [n|]; [| done].
    destruct (Yaml.field_by_name tbl n) as [set|] eqn:Hn.
    + destruct (set v out) as [out1|] eqn:Hset; [| done].
      intros Hrest. specialize (IH _ _ Hrest). simpl in IH.
      rewrite last_app.
      destruct (last (flat_map _ rest)) as [w|]; [exact IH |].
      specialize (Htbl _ _ Hn _ _ _ Hset).
      destruct (String.eqb n name).
      * destruct (last (applied_at path' v)); [| congruence].
        by rewrite IH.
      * simpl in *. congruence.
    + intros Hrest. specialize (IH _ _ Hrest). simpl in IH.
      rewrite last_app.
      destruct (last (flat_map _ rest)) as [w|]; [exact IH |].
      destruct (String.eqb n name) eqn:E; [| exact IH].
      apply String.eqb_eq in E as ->.
      rewrite Hn in Hname. by destruct Hname.
Qed.

Lemma unmarshal_struct_tracks {T} (get : T → value) dec name path'
    (zero : T) (tbl : Yaml.fields T) :
  dec YNull = Ok (get zero) →
  is_Some (Yaml.field_by_name tbl name) →
  Forall (fun entry =>
            tracks get dec
              (if String.eqb entry.1 name then applied_at path' else fun _ => [])
              entry.2) tbl →
  tracks get dec (applied_at (name :: path')) (Yaml.unmarshal_struct zero tbl).
Proof.
  intros Hzero Hname Htbl v out out'. unfold Yaml.unmarshal_struct.
  destruct v; try done.
  - intros [= <-]. exact Hzero.
  - apply mappingStruct_tracks; [done |].
    exact (field_by_name_Forall _ _ Htbl).
Qed.

Ltac tracks_leaf :=
  first
    [ by apply tracks_leaf_miss
    | by apply (tracks_leaf_hit VString)
    | by apply (tracks_leaf_hit VStrings)
    | by apply (tracks_leaf_hit VInt) ].

Ltac tracks_entries :=
  repeat first
    [ apply Forall_nil_2
    | apply Forall_cons_2; [simpl; tracks_leaf |] ].

Lemma Kafka_tracks f :
  tracks (Kafka_value f) (decode_value (kafka_kind f)) (applied_at [kafka_key f])
    (Yaml.unmarshal_struct zero_Kafka Kafka_fields).
Proof.
  destruct f; (apply unmarshal_struct_tracks; [reflexivity | by eexists |]);
    unfold Kafka_fields; tracks_entries.
Qed.

Lemma ZooKeeper_tracks f :
  tracks (ZooKeeper_value f) (decode_value (zoo_keeper_kind f))
    (applied_at [zoo_keeper_key f])
    (Yaml.unmarshal_struct zero_ZooKeeper ZooKeeper_fields).
Proof.
  destruct f; (apply unmarshal_struct_tracks; [reflexivity | by eexists |]);
    unfold ZooKeeper_fields; tracks_entries.
Qed.

Lemma Producer_tracks f :
  tracks (Producer_value f) (decode_value (producer_kind f))
    (applied_at [producer_key f])
    (Yaml.unmarshal_struct zero_Producer Producer_fields).
Proof.
  destruct f; (apply unmarshal_struct_tracks; [reflexivity | by eexists |]);
    unfold Producer_fields; tracks_entries.
Qed.

Lemma Consumer_tracks f :
  tracks (Consumer_value f) (decode_value (consumer_kind f))
    (applied_at [consumer_key f])
    (Yaml.unmarshal_struct zero_Consumer Consumer_fields).
Proof.
  destruct f; (apply unmarshal_struct_tracks; [reflexivity | by eexists |]);
    unfold Consumer_fields; tracks_entries.
Qed.

Lemma Proxy_tracks f :
  tracks (field_value f) (decode_value (kind_of f)) (applied_at (path f))
    (Yaml.unmarshal_struct zero_Proxy Proxy_fields).
Proof.
  destruct f as [|g|g|g|g]; cbn [path kind_of];
    (apply unmarshal_struct_tracks;
     [ try (by destruct g) | by eexists | unfold Proxy_fields ]);
    try reflexivity;
    repeat first
      [ apply Forall_nil_2
      | apply Forall_cons_2;
        [ simpl;
          first
            [ tracks_leaf
            | by apply tracks_sub_miss
            | by apply (tracks_sub_hit (Kafka_value g)); [| | apply Kafka_tracks]
            | by apply (tracks_sub_hit (ZooKeeper_value g)); [| | apply ZooKeeper_tracks]
            | by apply (tracks_sub_hit (Producer_value g)); [| | apply Producer_tracks]
            | by apply (tracks_sub_hit (Consumer_value g)); [| | apply Consumer_tracks] ]
        | ] ].
Qed.

(** The merge law for one block. *)
Lemma Unmarshal_Proxy_merge block dflt p f :
  Unmarshal_Proxy block dflt = Ok p →
  match last (applied_at (path f) block) with
  | Some w => decode_value (kind_of f) w = Ok (field_value f p)
  | None => field_value f p = field_value f dflt
  end.
Proof. apply Proxy_tracks. Qed.

(** Without a null section, the nodes the decoder applies to a field are
    the nodes the block gives for it. *)
Lemma applied_at_section name leaf (items : MapSlice) :
  forallb (fun item : MapItem =>
             match item.2 with
             | YNull => negb (has_name name item.1)
             | _ => true
             end) items = true →
  applied_at [name; leaf] (YMap items) = nodes_of [name; leaf] (YMap items).
Proof.
  intros Hall. simpl. induction items as [|[k v] rest IH]; [done |].
  simpl in *. apply andb_true_iff in Hall as [Hkv Hrest].
  rewrite (IH Hrest). f_equal.
  destruct (has_name name k); [| done].
  by destruct v.
Qed.

Lemma forallb_weaken {A} (P Q : A → bool) (l : list A) :
  (∀ x, P x = true → Q x = true) → forallb P l = true → forallb Q l = true.
Proof.
  intros HPQ. induction l as [|x l IH]; [done |]. simpl.
  intros [HP Hl]%andb_true_iff. by rewrite (HPQ _ HP), IH.
Qed.

Lemma applied_at_nodes_of f (items : MapSlice) :
  no_null_section items = true →
  applied_at (path f) (YMap items) = nodes_of (path f) (YMap items).
Proof.
  intros Hall. unfold no_null_section in Hall.
  destruct f as [|g|g|g|g]; [done | ..]; cbn [path]; apply applied_at_section;
    (eapply forallb_weaken; [| exact Hall]); intros [k v]; simpl;
    destruct v; try done;
    destruct (has_name "kafka" k), (has_name "zoo_keeper" k),
             (has_name "producer" k), (has_name "consumer" k); done.
Qed.

(** For a node of the type of the field, the decoder stores the value the
    node holds. *)
Lemma strings_of_decode elems l l' :
  strings_of elems = Some l →
  Yaml.decode_strings_elems elems = Ok l' →
  l' = l.
Proof.
  revert l l'. induction elems as [|w elems IH]; intros l l'; simpl.
  - by intros [= <-] [= <-].
  - destruct w; try done.
    destruct (strings_of elems) as [l0|]; [| done]. intros [= <-]. simpl.
    destruct (Yaml.decode_strings_elems elems) as [l1|]; [| done]. intros [= <-].
    f_equal. by apply IH.
Qed.

Lemma decode_override k w v v' :
  decode_value k w = Ok v' →
  override_value k w = Some v →
  v' = v.
Proof.
  destruct k, w; simpl; try done.
  - by intros [= <-] [= <-].
  - destruct (strings_of elems) as [l|] eqn:Hl; [| done].
    destruct (Yaml.decode_strings_elems elems) as [l'|] eqn:Hl'; [| done].
    simpl. intros [= <-] [= <-]. f_equal. by eapply strings_of_decode.
  - destruct (Yaml.fits_int64 n); [| done]. by intros [= <-] [= <-].
  - unfold decode_Duration. simpl.
    destruct (Yaml.fits_int64 n); [| done]. by intros [= <-] [= <-].
  - unfold decode_Duration. simpl.
    destruct (ParseDuration s); [| done]. by intros [= <-] [= <-].
Qed.

(** *** The validator of the application configuration *)

Lemma validate_range_None entries :
  validate_range entries = None ↔
  ∀ c p, (c, p) ∈ entries → Proxy_validate p = None.
Proof.
  induction entries as [|[c0 p0] rest IH]; simpl.
  - split; [intros _ c p Hin; by apply elem_of_nil in Hin | done].
  - destruct (Proxy_validate p0) eqn:E.
    + split; [done |]. intros H. specialize (H c0 p0). rewrite E in H.
      discriminate H. by left.
    + rewrite IH. split.
      * intros H c p [[= -> ->] | Hin]%elem_of_cons; [done | by eapply H].
      * intros H c p Hin. eapply H. by right.
Qed.

Lemma validate_range_Some entries e :
  validate_range entries = Some e →
  ∃ c p e', (c, p) ∈ entries ∧ Proxy_validate p = Some e' ∧
            e = errors_Wrap e' ("invalid config, cluster=" +:+ c).
Proof.
  induction entries as [|[c0 p0] rest IH]; simpl; [done |].
  destruct (Proxy_validate p0) as [e0|] eqn:E.
  - intros [= <-]. exists c0, p0, e0. split; [by left | done].
  - intros (c & p & e' & Hin & Hv & ->)%IH. exists c, p, e'.
    split; [by right | done].
Qed.

Lemma elem_of_range_Proxies m c p : (c, p) ∈ range_Proxies m ↔ m !! c = Some p.
Proof. rewrite (range_Proxies_perm m). apply elem_of_map_to_list. Qed.

Lemma App_validate_None a :
  App_validate a = None ↔
  Proxies a ≠ ∅ ∧ ∀ c p, Proxies a !! c = Some p → Proxy_validate p = None.
Proof.
  unfold App_validate. case_bool_decide as Hsize.
  - apply map_size_empty_iff in Hsize. split; [done | by intros [? _]].
  - rewrite validate_range_None. rewrite map_size_empty_iff in Hsize.
    split.
    + intros H. split; [done |]. intros c p Hc. apply (H c p).
      by apply elem_of_range_Proxies.
    + intros [_ H] c p Hin. apply (H c p). by apply elem_of_range_Proxies.
Qed.

Lemma App_validate_Some a e :
  App_validate a = Some e →
  (Proxies a = ∅ ∧ e = errors_New "at least on proxy must be configured") ∨
  (∃ c p e', Proxies a !! c = Some p ∧ Proxy_validate p = Some e' ∧
             e = errors_Wrap e' ("invalid config, cluster=" +:+ c)).
Proof.
  unfold App_validate. case_bool_decide as Hsize.
  - apply map_size_empty_iff in Hsize. intros [= <-]. by left.
  - intros (c & p & e' & Hin & Hv & ->)%validate_range_Some. right.
    exists c, p, e'. by rewrite <- elem_of_range_Proxies.
Qed.

Lemma first_violation_app (cs1 cs2 : list check) p :
  first_violation (cs1 ++ cs2)%list p =
  match first_violation cs1 p with
  | Some e => Some e
  | None => first_violation cs2 p
  end.
Proof.
  induction cs1 as [|c cs1 IH]; simpl; [done |]. by destruct (holds c p).
Qed.

(** *** The loop of [FromYAML] *)

Lemma FromYAML_loop_cons item rest a cid :
  FromYAML_loop (item :: rest) a cid =
  match item.1 with
  | YStr cluster =>
      match Unmarshal_Proxy (Yaml.Marshal item.2) (defaultProxyWithClientID cid) with
      | Ok p => FromYAML_loop rest (add_proxy a (cluster, p)) cid
      | Err err =>
          Err (errors_Wrap err ("failed to parse proxy config, cluster=" +:+ cluster))
      end
  | _ => Err (errors_New "invalid cluster, ")
  end.
Proof.
  destruct item as [k v]. simpl. destruct k; try reflexivity. simpl.
  destruct (Unmarshal_Proxy _ _); [| reflexivity].
  unfold add_proxy. simpl. by destruct (String.eqb (DefaultCluster a) "").
Qed.

Lemma FromYAML_loop_app (pre post : MapSlice) a cid :
  FromYAML_loop (pre ++ post)%list a cid =
  match FromYAML_loop pre a cid with
  | Ok a1 => FromYAML_loop post a1 cid
  | Err e => Err e
  end.
Proof.
  revert a. induction pre as [|item pre IH]; intros a; [done |].
  rewrite <- app_comm_cons, !FromYAML_loop_cons.
  destruct item.1; try done. by destruct (Unmarshal_Proxy _ _).
Qed.

Lemma FromYAML_loop_Ok items a cid a' :
  FromYAML_loop items a cid = Ok a' ↔
  ∃ entries, Forall2 (merged cid) items entries ∧ a' = foldl add_proxy a entries.
Proof.
  revert a. induction items as [|item rest IH]; intros a.
  - simpl. split.
    + intros [= <-]. exists []. split; [constructor | done].
    + intros (entries & ->%Forall2_nil_inv_l & ->). done.
  - rewrite FromYAML_loop_cons. split.
    + destruct item.1 as [| | |cluster| |] eqn:Hk; try done.
      destruct (Unmarshal_Proxy _ _) as [p|] eqn:Hp; [| done].
      intros (entries & Hall & ->)%IH. exists ((cluster, p) :: entries).
      split; [| done]. by constructor.
    + intros (entries & Hall & ->).
      apply Forall2_cons_inv_l in Hall as ([c p] & entries' & [Hk Hp] & Hall & ->).
      simpl in Hk, Hp. rewrite Hk, Hp. apply IH. by exists entries'.
Qed.

Lemma Proxies_foldl a entries :
  Proxies (foldl add_proxy a entries) =
  foldl (fun m entry => <[entry.1 := entry.2]> m) (Proxies a) entries.
Proof. revert a. induction entries as [|e es IH]; intros a; [done |]. simpl. by rewrite IH. Qed.

Lemma DefaultCluster_foldl a entries :
  DefaultCluster (foldl add_proxy a entries) =
  first_nonempty (DefaultCluster a :: entries.*1).
Proof.
  revert a. induction entries as [|e es IH]; intros a.
  - simpl. destruct (String.eqb (DefaultCluster a) "") eqn:E; [| done].
    by apply String.eqb_eq in E.
  - simpl foldl. rewrite IH. simpl.
    destruct (String.eqb (DefaultCluster a) "") eqn:E; [done |]. by rewrite E.
Qed.

Lemma merged_cluster_names cid items entries :
  Forall2 (merged cid) items entries → cluster_names items = entries.*1.
Proof.
  induction 1 as [|[k v] [c p] items entries [Hk _] _ IH]; [done |].
  simpl in Hk. subst k. unfold cluster_names in *. simpl. by f_equal.
Qed.

(** The default cluster names an entry as soon as there is one. *)
Lemma DefaultCluster_present a entries :
  (Proxies a = ∅ ∧ DefaultCluster a = "") ∨ is_Some (Proxies a !! DefaultCluster a) →
  let a' := foldl add_proxy a entries in
  (entries = [] ∧ Proxies a = ∅) ∨ is_Some (Proxies a' !! DefaultCluster a').
Proof.
  revert a. induction entries as [|[c p] es IH]; intros a Ha; simpl.
  - destruct Ha as [[? ?] | ?]; [by left | by right].
  - right. destruct (IH (add_proxy a (c, p))) as [[_ Hemp] | H]; [| | done].
    + right. unfold add_proxy. simpl.
      destruct (String.eqb (DefaultCluster a) "") eqn:E.
      * rewrite lookup_insert_eq. by eexists.
      * destruct Ha as [[_ Hdc] | Hsome].
        { rewrite Hdc in E. discriminate. }
        rewrite lookup_insert. case_decide; [by eexists | done].
    + simpl in Hemp. by apply insert_non_empty in Hemp.
Qed.

Lemma Proxies_block_of cid items entries (m : gmap string Proxy) c :
  Forall2 (merged cid) items entries →
  match block_of c items with
  | Some b =>
      ∃ p, Unmarshal_Proxy (Yaml.Marshal b) (defaultProxyWithClientID cid) = Ok p ∧
           foldl (fun m entry => <[entry.1 := entry.2]> m) m entries !! c = Some p
  | None => foldl (fun m entry => <[entry.1 := entry.2]> m) m entries !! c = m !! c
  end.
Proof.
  intros Hall. revert m.
  induction Hall as [|[k v] [c0 p0] items entries [Hk Hp] _ IH]; intros m; [done |].
  simpl in Hk, Hp. subst k. simpl. specialize (IH (<[c0 := p0]> m)).
  destruct (block_of c items) as [b|]; [exact IH |].
  rewrite IH. destruct (String.eqb c0 c) eqn:E.
  - apply String.eqb_eq in E as ->. exists p0. by rewrite lookup_insert_eq.
  - apply String.eqb_neq in E. by rewrite lookup_insert_ne.
Qed.

Lemma FromYAML_loop_Err items a cid e :
  FromYAML_loop items a cid = Err e →
  (e = errors_New "invalid cluster, " ∧
   ∃ k v, (k, v) ∈ items ∧ ∀ c, k ≠ YStr c) ∨
  (∃ c block y,
     (YStr c, block) ∈ items ∧
     Unmarshal_Proxy (Yaml.Marshal block) (defaultProxyWithClientID cid) = Err y ∧
     e = errors_Wrap y ("failed to parse proxy config, cluster=" +:+ c)).
Proof.
  revert a. induction items as [|[k v] rest IH]; intros a; [done |].
  rewrite FromYAML_loop_cons. simpl.
  assert (∀ a1, FromYAML_loop rest a1 cid = Err e →
    (e = errors_New "invalid cluster, " ∧
     ∃ k' v', (k', v') ∈ (k, v) :: rest ∧ ∀ c, k' ≠ YStr c) ∨
    (∃ c block y,
       (YStr c, block) ∈ (k, v) :: rest ∧
       Unmarshal_Proxy (Yaml.Marshal block) (defaultProxyWithClientID cid) = Err y ∧
       e = errors_Wrap y ("failed to parse proxy config, cluster=" +:+ c))) as Hrest.
  { intros a1 [[-> (k' & v' & Hin & Hk)] | (c & b & y & Hin & Hy & ->)]%IH.
    - left. split; [done |]. exists k', v'. split; [by right | done].
    - right. exists c, b, y. split; [by right | done]. }
  destruct k as [| | |cluster| |];
    try (intros [= <-]; left; split; [done |]; eexists _, v;
         split; [by left | done]).
  destruct (Unmarshal_Proxy _ _) as [p|y] eqn:Hp; [by apply Hrest |].
  intros [= <-]. right. exists cluster, v, y. split; [by left | done].
Qed.

(** *** [FromYAML] *)

Lemma append_assoc (s1 s2 s3 : string) : (s1 +:+ s2) +:+ s3 = s1 +:+ s2 +:+ s3.
Proof.
  induction s1 as [|a s1 IH]; [done |].
  change (String a ((s1 +:+ s2) +:+ s3) = String a (s1 +:+ s2 +:+ s3)).
  by f_equal.
Qed.

Lemma names_Wrap_cause e msg x : names (Error e) x → names (Error (errors_Wrap e msg)) x.
Proof.
  intros (pre & post & Hx). exists (msg +:+ ": " +:+ pre), post. simpl.
  by rewrite Hx, !append_assoc.
Qed.

Lemma names_Wrap_suffix e msg x : names (Error (errors_Wrap e (msg +:+ x))) x.
Proof. exists msg, (": " +:+ Error e). simpl. by rewrite append_assoc. Qed.

Lemma FromYAML_Ok data cfg :
  FromYAML data = Ok cfg ↔
  ∃ prob entries,
    Unmarshal_proxyProb data (mkProxyProb []) = Ok prob ∧
    Forall2 (merged newClientID) (prob_Proxies prob) entries ∧
    cfg = foldl add_proxy newApp entries ∧
    App_validate cfg = None.
Proof.
  unfold FromYAML. split.
  - destruct (Unmarshal_proxyProb _ _) as [prob|]; [| done].
    destruct (FromYAML_loop _ _ _) as [a|] eqn:Hloop; [| done].
    destruct (App_validate a) eqn:Hv; [done |]. intros [= <-].
    apply FromYAML_loop_Ok in Hloop as (entries & Hall & ->).
    by exists prob, entries.
  - intros (prob & entries & -> & Hall & -> & Hv).
    assert (FromYAML_loop (prob_Proxies prob) newApp newClientID
            = Ok (foldl add_proxy newApp entries)) as ->.
    { apply FromYAML_loop_Ok. by exists entries. }
    by rewrite Hv.
Qed.

Lemma FromYAML_Err data e :
  FromYAML data = Err e →
  (∃ y, Unmarshal_proxyProb data (mkProxyProb []) = Err y ∧
        e = errors_Wrap y "failed to parse config") ∨
  ∃ prob, Unmarshal_proxyProb data (mkProxyProb []) = Ok prob ∧
    ((e = errors_New "invalid cluster, " ∧
      ∃ k v, (k, v) ∈ prob_Proxies prob ∧ ∀ c, k ≠ YStr c) ∨
     (∃ c block y,
        (YStr c, block) ∈ prob_Proxies prob ∧
        Unmarshal_Proxy (Yaml.Marshal block) (defaultProxyWithClientID newClientID)
          = Err y ∧
        e = errors_Wrap y ("failed to parse proxy config, cluster=" +:+ c)) ∨
     (∃ entries v,
        Forall2 (merged newClientID) (prob_Proxies prob) entries ∧
        App_validate (foldl add_proxy newApp entries) = Some v ∧
        e = errors_Wrap v "invalid config parameter")).
Proof.
  unfold FromYAML.
  destruct (Unmarshal_proxyProb _ _) as [prob|y]; [| intros [= <-]; left; by exists y].
  intros H. right. exists prob. split; [done |].
  destruct (FromYAML_loop _ _ _) as [a|e'] eqn:Hloop.
  - destruct (App_validate a) as [v|] eqn:Hv; [| done]. injection H as <-.
    apply FromYAML_loop_Ok in Hloop as (entries & Hall & ->).
    right. right. by exists entries, v.
  - injection H as <-. apply FromYAML_loop_Err in Hloop as [Hk | Hb].
    + by left.
    + right. by left.
Qed.

Lemma App_validate_nonempty a : App_validate a = None → Proxies a ≠ ∅.
Proof.
  unfold App_validate. case_bool_decide as Hsize; [done |].
  intros _. by rewrite map_size_empty_iff in Hsize.
Qed.

Lemma FromYAML_DefaultCluster data prob cfg :
  Unmarshal_proxyProb data (mkProxyProb []) = Ok prob →
  FromYAML data = Ok cfg →
  DefaultCluster cfg = first_nonempty (cluster_names (prob_Proxies prob)).
Proof.
  intros Hprob (prob' & entries & Hprob' & Hall & -> & _)%FromYAML_Ok.
  rewrite Hprob in Hprob'. injection Hprob' as <-.
  rewrite DefaultCluster_foldl, (merged_cluster_names _ _ _ Hall). reflexivity.
Qed.

(** Items whose key names no field leave the result of the decoder as it
    is. *)
Lemma mappingStruct_skip {T} (tbl : Yaml.fields T) (pre post : MapSlice) k v name out :
  Yaml.decode_name k = Ok name →
  Yaml.field_by_name tbl name = None →
  Yaml.mappingStruct tbl (pre ++ (k, v) :: post)%list out
  = Yaml.mappingStruct tbl (pre ++ post)%list out.
Proof.
  intros Hk Hn. revert out. induction pre as [|[k' v'] pre IH]; intros out; simpl.
  - by rewrite Hk, Hn.
  - destruct (Yaml.decode_name k') as [n'|]; [| done].
    destruct (Yaml.field_by_name tbl n') as [set|]; [| apply IH].
    destruct (set v' out); [apply IH | done].
Qed.

Lemma foldl_insert_lookup (entries : list (string * Proxy)) (m : gmap string Proxy) c p :
  foldl (fun m entry => <[entry.1 := entry.2]> m) m entries !! c = Some p →
  m !! c = Some p ∨ (c, p) ∈ entries.
Proof.
  revert m. induction entries as [|[c0 p0] es IH]; intros m; simpl; [by left |].
  intros [Hm | Hin]%IH; [| right; by right].
  rewrite lookup_insert in Hm. case_decide as E; [| by left].
  injection Hm as <-. subst c0. right. by left.
Qed.

Lemma foldl_insert_nonempty (entries : list (string * Proxy)) (m : gmap string Proxy) :
  entries ≠ [] ∨ m ≠ ∅ →
  foldl (fun m entry => <[entry.1 := entry.2]> m) m entries ≠ ∅.
Proof.
  revert m. induction entries as [|e es IH]; intros m; simpl.
  - by intros [? | ?].
  - intros _. apply IH. right. apply insert_non_empty.
Qed.

(** A load whose blocks are all empty: every proxy is the default. *)
Lemma App_validate_defaults (clusters : list string) cid :
  clusters ≠ [] →
  App_validate (foldl add_proxy newApp
                  ((fun c => (c, defaultProxyWithClientID cid)) <$> clusters)) = None.
Proof.
  intros Hne. apply App_validate_None. rewrite Proxies_foldl. split.
  - apply foldl_insert_nonempty. left. by destruct clusters.
  - intros c p [Hm | Hin]%foldl_insert_lookup; [done |].
    apply list_elem_of_fmap in Hin as (c' & [= -> ->] & _).
    apply Proxy_validate_default.
Qed.

Lemma empty_first_load :
  FromYAML empty_first_doc
  = Ok (foldl add_proxy newApp
          ((fun c => (c, defaultProxyWithClientID newClientID)) <$> [""; "b"])).
Proof.
  apply FromYAML_Ok.
  exists (mkProxyProb [(YStr "", YMap []); (YStr "b", YMap [])]),
    ((fun c => (c, defaultProxyWithClientID newClientID)) <$> [""; "b"]).
  split; [reflexivity |]. split; [by repeat constructor |]. split; [reflexivity |].
  by apply App_validate_defaults.
Qed.

(** The document without its [default_cluster] key loads to the same. *)
Lemma FromYAML_skip_default_cluster (items1 items2 : MapSlice) v :
  FromYAML (YMap (items1 ++ (YStr "default_cluster", v) :: items2)%list)
  = FromYAML (YMap (items1 ++ items2)%list).
Proof.
  unfold FromYAML, Unmarshal_proxyProb. simpl.
  by rewrite (mappingStruct_skip _ _ _ _ v "default_cluster").
Qed.

(** The default cluster of a successful load is the first cluster name of
    the document when that name is not empty. *)
Lemma FromYAML_DefaultCluster_first data prob cfg c block rest :
  Unmarshal_proxyProb data (mkProxyProb []) = Ok prob →
  prob_Proxies prob = (YStr c, block) :: rest →
  c ≠ "" →
  FromYAML data = Ok cfg →
  DefaultCluster cfg = c.
Proof.
  intros Hprob Hitems Hc Hload.
  rewrite (FromYAML_DefaultCluster _ _ _ Hprob Hload), Hitems.
  unfold cluster_names. simpl.
  destruct (String.eqb c "") eqn:E; [| done]. by apply String.eqb_eq in E.
Qed.

Lemma append_empty_r (s : string) : s +:+ "" = s.
Proof.
  induction s as [|b s IH]; [done |].
  change (String b (s +:+ "") = String b s). by f_equal.
Qed.

Lemma names_Wrap_inner e msg : names (Error (errors_Wrap e msg)) (Error e).
Proof. exists (msg +:+ ": "), "". simpl. by rewrite append_assoc, append_empty_r. Qed.

Lemma FromYAML_validate_error data prob entries v :
  Unmarshal_proxyProb data (mkProxyProb []) = Ok prob →
  Forall2 (merged newClientID) (prob_Proxies prob) entries →
  App_validate (foldl add_proxy newApp entries) = Some v →
  FromYAML data = Err (errors_Wrap v "invalid config parameter").
Proof.
  intros Hprob Hall Hv. unfold FromYAML. rewrite Hprob.
  assert (FromYAML_loop (prob_Proxies prob) newApp newClientID
          = Ok (foldl add_proxy newApp entries)) as ->.
  { apply FromYAML_loop_Ok. by exists entries. }
  by rewrite Hv.
Qed.

(** ** The claims of the specification *)


(** C2, as amended.  [Proxy.validate] rejects every proxy configuration
    whose acknowledgment timeout is not below the registration timeout,
    equal values included: with the error of the first of the nine checks
    before it that fails, and with the error naming both fields when the
    nine pass.  [App.validate] rejects a configuration holding such a
    proxy with the error of a proxy that fails, wrapped with the name of
    its cluster; that proxy is the one at hand when every other proxy
    passes.  A load that merges into this configuration fails with that
    error wrapped once more, which names the cluster and carries the
    error of the proxy. *)
Theorem ack_timeout_rejected (a : App) (cluster : string) (p : Proxy) :
  Proxies a !! cluster = Some p →
  Consumer_RegistrationTimeout (Consumer p) ≤ Consumer_AckTimeout (Consumer p) →
  Proxy_validate p
  = Some (match first_violation producer_checks p with
          | Some e => e
          | None => ack_timeout_error
          end) ∧
  names (Error ack_timeout_error) "consumer.ack_timeout" ∧
  names (Error ack_timeout_error) "consumer.registration_timeout" ∧
  ∃ c' p' e',
    Proxies a !! c' = Some p' ∧ Proxy_validate p' = Some e' ∧
    App_validate a = Some (errors_Wrap e' ("invalid config, cluster=" +:+ c')) ∧
    ((∀ c'' p'', Proxies a !! c'' = Some p'' → c'' ≠ cluster →
                 Proxy_validate p'' = None) →
     c' = cluster ∧ p' = p) ∧
    (∀ data prob entries,
       Unmarshal_proxyProb data (mkProxyProb []) = Ok prob →
       Forall2 (merged newClientID) (prob_Proxies prob) entries →
       a = foldl add_proxy newApp entries →
       let load_error :=
         errors_Wrap (errors_Wrap e' ("invalid config, cluster=" +:+ c'))
           "invalid config parameter" in
       FromYAML data = Err load_error ∧
       names (Error load_error) c' ∧
       names (Error load_error) (Error e')).
Proof.
  intros Hp Hack.
  assert (Proxy_validate p
          = Some (match first_violation producer_checks p with
                  | Some e => e
                  | None => ack_timeout_error
                  end)) as Hv.
  { rewrite Proxy_validate_checks. unfold checks_in_order.
    rewrite first_violation_app.
    destruct (first_violation producer_checks p) as [e|]; [done |]. simpl.
    destruct (Z.ltb_spec (Consumer_AckTimeout (Consumer p))
                (Consumer_RegistrationTimeout (Consumer p))); [lia | done]. }
  split; [exact Hv |].
  split; [by apply contains_spec |].
  split; [by apply contains_spec |].
  destruct (App_validate a) as [ea|] eqn:Ha.
  2: { apply App_validate_None in Ha as [_ Hall]. rewrite (Hall _ _ Hp) in Hv. done. }
  apply App_validate_Some in Ha as Hcases.
  destruct Hcases as [[Hemp _] | (c' & p' & e' & Hc' & Hv' & ->)].
  { rewrite Hemp in Hp. by rewrite lookup_empty in Hp. }
  exists c', p', e'. split_and!; try done.
  - intros Hothers. destruct (decide (c' = cluster)) as [-> | Hne].
    + split; [done |]. congruence.
    + rewrite (Hothers _ _ Hc' Hne) in Hv'. done.
  - intros data prob entries Hprob Hall -> load_error. split_and!.
    + by apply (FromYAML_validate_error _ prob entries).
    + apply names_Wrap_cause, names_Wrap_suffix.
    + apply names_Wrap_cause, names_Wrap_inner.
Qed.

(** C3.  The load of [{proxies: {"": {}, b: {}}}] succeeds, whatever the
    order in which the validator visits the proxies; its first cluster
    name is the empty one, yet the default cluster is [b]: the loop takes
    the empty name for a default cluster that is still to be set. *)
Theorem empty_first_cluster_not_default :
  ∃ cfg,
    FromYAML empty_first_doc = Ok cfg ∧
    head (cluster_names [(YStr "", YMap []); (YStr "b", YMap [])]) = Some "" ∧
    DefaultCluster cfg = "b".
Proof. eexists. split; [apply empty_first_load |]. split; reflexivity. Qed.

(** C4.  [Proxy.validate] runs the checks of the specification in the
    order in which the specification lists them (version, the six numeric
    producer checks, compression, required acks, then the consumer checks
    from the acknowledgment timeout on) and returns the error of the first
    one that fails, whatever the checks after it would say; it returns no
    error exactly when all of them hold. *)
Theorem Proxy_validate_first_violation (p : Proxy) :
  Proxy_validate p = first_violation checks_in_order p ∧
  (∀ (before after : list check) c,
     checks_in_order = (before ++ c :: after)%list →
     Forall (fun c' => holds c' p = true) before →
     holds c p = false →
     Proxy_validate p = Some (report c p)) ∧
  (Proxy_validate p = None ↔ Forall (fun c => holds c p = true) checks_in_order).
Proof.
  rewrite Proxy_validate_checks. split; [done |]. split.
  - intros before after c ->. apply first_violation_split.
  - apply first_violation_None.
Qed.

(** C5.  The default Kafka version is the value of the environment
    variable exactly when that value is one of the six supported versions;
    for any other value, the empty one included, it is 0.8.2.2. *)
Theorem default_version_from_env (clientID : string) :
  let versionStr := Getenv "KAFKA_VERSION" in
  let version := Kafka_Version (Kafka (defaultProxyWithClientID clientID)) in
  version = (if bool_decide (versionStr ∈ supported_versions) then versionStr
             else "0.8.2.2") ∧
  bool_decide (version = versionStr) = bool_decide (versionStr ∈ supported_versions).
Proof.
  simpl. rewrite has_key_kafkaVersions.
  destruct (bool_decide (Getenv "KAFKA_VERSION" ∈ supported_versions)) eqn:E.
  - split; [done | by apply bool_decide_eq_true].
  - split; [done |]. apply bool_decide_eq_false. intros Heq.
    apply bool_decide_eq_false in E. apply E. rewrite <- Heq.
    unfold defaultKafkaVersion, supported_versions. by left.
Qed.

(** C6.  Whatever the client identifier and the environment, the default
    proxy configuration passes [Proxy.validate] as it is; in particular
    its acknowledgment timeout of 15 s is below its registration timeout of
    20 s. *)
Theorem default_proxy_valid (clientID : string) :
  Proxy_validate (defaultProxyWithClientID clientID) = None ∧
  Consumer_AckTimeout (Consumer (defaultProxyWithClientID clientID)) = 15 * Second ∧
  Consumer_RegistrationTimeout (Consumer (defaultProxyWithClientID clientID))
    = 20 * Second.
Proof. split; [apply Proxy_validate_default | done]. Qed.

(** C7.  A document with an item of [proxies] whose key holds no string
    is rejected; but when the loop of [FromYAML] reaches that item, the
    error is [invalid cluster, ] followed by nothing: the message is the
    same for every such key, so it does not name the key. *)
Theorem invalid_cluster_error data prob k block :
  Unmarshal_proxyProb data (mkProxyProb []) = Ok prob →
  (k, block) ∈ prob_Proxies prob →
  (∀ c, k ≠ YStr c) →
  (∃ e, FromYAML data = Err e) ∧
  (∀ (pre post : MapSlice) entries,
     prob_Proxies prob = (pre ++ (k, block) :: post)%list →
     Forall2 (merged newClientID) pre entries →
     FromYAML data = Err (errors_New "invalid cluster, ") ∧
     Error (errors_New "invalid cluster, ") = "invalid cluster, ").
Proof.
  intros Hprob Hin Hk. split.
  - destruct (FromYAML data) as [cfg|e] eqn:Hload; [| by exists e].
    apply FromYAML_Ok in Hload as (prob' & entries & Hprob' & Hall & _).
    rewrite Hprob in Hprob'. injection Hprob' as <-.
    exfalso. apply list_elem_of_lookup in Hin as [i Hi].
    destruct (Forall2_lookup_l _ _ _ i _ Hall Hi) as ([c p] & _ & [Hc _]).
    simpl in Hc. by destruct (Hk c).
  - intros pre post entries Hitems Hpre. split; [| reflexivity].
    unfold FromYAML. rewrite Hprob, Hitems, FromYAML_loop_app.
    assert (FromYAML_loop pre newApp newClientID = Ok (foldl add_proxy newApp entries))
      as ->.
    { apply FromYAML_loop_Ok. by exists entries. }
    rewrite FromYAML_loop_cons. simpl.
    destruct k; try reflexivity. by destruct (Hk s).
Qed.

(** C8, as amended.  [FromYAML] is all or nothing.  It returns a
    configuration only when every item was merged and the validator
    accepted the result, and the configuration then holds every item;
    otherwise it returns an error and no configuration.  A document with
    a block that does not decode is never loaded.  When the loop reaches
    such a block, every item before it having been merged, the error is
    the error of the decoder wrapped with the name of the cluster.  When
    every item was merged and the validator rejects the result, the error
    is the error of the validator wrapped, which names the cluster of a
    proxy that fails unless there is no proxy at all. *)
Theorem FromYAML_all_or_nothing data :
  load_outcome data ∧
  ∀ prob,
    Unmarshal_proxyProb data (mkProxyProb []) = Ok prob →
    (∀ k block y,
       (k, block) ∈ prob_Proxies prob →
       Unmarshal_Proxy (Yaml.Marshal block) (defaultProxyWithClientID newClientID)
         = Err y →
       ∃ e, FromYAML data = Err e) ∧
    (∀ (pre post : MapSlice) entries c block y,
       prob_Proxies prob = (pre ++ (YStr c, block) :: post)%list →
       Forall2 (merged newClientID) pre entries →
       Unmarshal_Proxy (Yaml.Marshal block) (defaultProxyWithClientID newClientID)
         = Err y →
       let e := errors_Wrap y ("failed to parse proxy config, cluster=" +:+ c) in
       FromYAML data = Err e ∧ names (Error e) c) ∧
    (∀ entries v,
       Forall2 (merged newClientID) (prob_Proxies prob) entries →
       App_validate (foldl add_proxy newApp entries) = Some v →
       let e := errors_Wrap v "invalid config parameter" in
       FromYAML data = Err e ∧
       ((entries = [] ∧ v = errors_New "at least on proxy must be configured") ∨
        ∃ c p e',
          Proxies (foldl add_proxy newApp entries) !! c = Some p ∧
          Proxy_validate p = Some e' ∧
          v = errors_Wrap e' ("invalid config, cluster=" +:+ c) ∧
          names (Error e) c)).
Proof.
  split.
  - unfold load_outcome. destruct (FromYAML data) as [cfg|e] eqn:H.
    + by apply FromYAML_Ok.
    + apply FromYAML_Err in H as [Hparse | (prob & Hprob & Hcases)]; [by left |].
      right. exists prob. split; [done |].
      destruct Hcases
        as [Hkey | [(c & b & y & Hin & Hy & ->) | (entries & v & Hall & Hv & ->)]].
      * by left.
      * right. left. exists c, b, y. split_and!; try done. apply names_Wrap_suffix.
      * right. right. exists entries, v. split_and!; try done.
        apply App_validate_Some in Hv as [[Hemp _] | (c & p & e' & Hc & Hp & ->)].
        -- left. destruct entries as [|e es]; [done |]. exfalso.
           rewrite Proxies_foldl in Hemp. revert Hemp.
           apply foldl_insert_nonempty. by left.
        -- right. exists c, p, e'. split_and!; try done.
           apply names_Wrap_cause, names_Wrap_suffix.
  - intros prob Hprob. split_and!.
    + intros k block y Hin Hy.
      destruct (FromYAML data) as [cfg|e] eqn:Hload; [| by exists e].
      apply FromYAML_Ok in Hload as (prob' & entries & Hprob' & Hall & _).
      rewrite Hprob in Hprob'. injection Hprob' as <-.
      apply list_elem_of_lookup in Hin as [i Hi].
      destruct (Forall2_lookup_l _ _ _ i _ Hall Hi) as ([c p] & _ & [_ Hp]).
      simpl in Hp. congruence.
    + intros pre post entries c block y Hitems Hpre Hy e. split.
      * unfold FromYAML. rewrite Hprob, Hitems, FromYAML_loop_app.
        assert (FromYAML_loop pre newApp newClientID
                = Ok (foldl add_proxy newApp entries)) as ->.
        { apply FromYAML_loop_Ok. by exists entries. }
        rewrite FromYAML_loop_cons. simpl. by rewrite Hy.
      * apply names_Wrap_suffix.
    + intros entries v Hall Hv e. split.
      * by apply (FromYAML_validate_error _ prob entries).
      * apply App_validate_Some in Hv as [[Hemp ->] | (c & p & e' & Hc & Hp & ->)].
        -- left. split; [| done]. destruct entries as [|e0 es]; [done |]. exfalso.
           rewrite Proxies_foldl in Hemp. revert Hemp.
           apply foldl_insert_nonempty. by left.
        -- right. exists c, p, e'. split_and!; try done.
           apply names_Wrap_cause, names_Wrap_suffix.
Qed.

(** C9.  A configuration returned by [FromYAML] has at least one proxy,
    and its default cluster is the name of one of its proxies. *)
Theorem FromYAML_invariants data cfg :
  FromYAML data = Ok cfg →
  Proxies cfg ≠ ∅ ∧ is_Some (Proxies cfg !! DefaultCluster cfg).
Proof.
  intros (prob & entries & _ & _ & -> & Hv)%FromYAML_Ok.
  apply App_validate_nonempty in Hv. split; [done |].
  destruct (DefaultCluster_present newApp entries) as [[-> _] | H]; [by left | | done].
  by destruct Hv.
Qed.

(** C10.  The [default_cluster] key of
    [{default_cluster: v, proxies: {"": {}, b: {}}}] is ignored whatever
    its value [v]; the load succeeds, and although the first cluster name
    is the empty one, the default cluster is [b]. *)
Theorem default_cluster_key_empty_first (v : yaml) :
  ∃ cfg,
    FromYAML (YMap [(YStr "default_cluster", v);
                    (YStr "proxies", YMap [(YStr "", YMap []); (YStr "b", YMap [])])])
    = Ok cfg ∧
    head (cluster_names [(YStr "", YMap []); (YStr "b", YMap [])]) = Some "" ∧
    DefaultCluster cfg = "b".
Proof.
  eexists. split.
  - etransitivity; [| apply empty_first_load].
    apply (FromYAML_skip_default_cluster [] _ v).
  - split; reflexivity.
Qed.

(** ** Further properties of the package *)

(** *** Validation *)

(** X1.  The verdict of [App.validate] does not depend on the order in
    which [range] visits the map: it accepts exactly the configurations
    that have a proxy and whose proxies all pass [Proxy.validate]; without
    any proxy the error is the one asking for a proxy. *)
Theorem App_validate_verdict (a : App) :
  (App_validate a = None ↔
   Proxies a ≠ ∅ ∧ ∀ c p, Proxies a !! c = Some p → Proxy_validate p = None) ∧
  (Proxies a = ∅ →
   App_validate a = Some (errors_New "at least on proxy must be configured")).
Proof.
  split; [apply App_validate_None |].
  intros Hemp. unfold App_validate. rewrite Hemp, map_size_empty. done.
Qed.

(** X2.  Every proxy of a configuration returned by [FromYAML] passes
    [Proxy.validate]. *)
Theorem FromYAML_proxies_valid data cfg c p :
  FromYAML data = Ok cfg →
  Proxies cfg !! c = Some p →
  Proxy_validate p = None.
Proof.
  intros (_ & _ & _ & _ & _ & Hv)%FromYAML_Ok Hp.
  apply App_validate_None in Hv as [_ Hall]. by apply (Hall c).
Qed.

Lemma foldl_add_proxy_addrs a entries :
  GRPCAddr (foldl add_proxy a entries) = GRPCAddr a ∧
  TCPAddr (foldl add_proxy a entries) = TCPAddr a ∧
  UnixAddr (foldl add_proxy a entries) = UnixAddr a.
Proof.
  revert a. induction entries as [|e es IH]; intros a; [done |].
  simpl. destruct (IH (add_proxy a e)) as (-> & -> & ->). done.
Qed.

(** X3.  The listener addresses of a configuration returned by [FromYAML]
    are the defaults of [newApp], whatever the document says: the load
    reads nothing but the proxies. *)
Theorem FromYAML_listener_defaults data cfg :
  FromYAML data = Ok cfg →
  GRPCAddr cfg = "0.0.0.0:19091" ∧ TCPAddr cfg = "0.0.0.0:19092" ∧ UnixAddr cfg = "".
Proof.
  intros (_ & entries & _ & _ & -> & _)%FromYAML_Ok.
  apply (foldl_add_proxy_addrs newApp).
Qed.

Lemma foldl_insert_keys (entries : list (string * Proxy)) (m : gmap string Proxy) c :
  is_Some (foldl (fun m entry => <[entry.1 := entry.2]> m) m entries !! c) ↔
  is_Some (m !! c) ∨ c ∈ entries.*1.
Proof.
  revert m. induction entries as [|[c0 p0] es IH]; intros m; simpl.
  - split; [by left | intros [? | Hin]; [done | by apply elem_of_nil in Hin]].
  - rewrite IH, lookup_insert_is_Some, elem_of_cons. split.
    + intros [[-> | [_ ?]] | ?]; [right; by left | by left | right; by right].
    + intros [? | [-> | ?]]; [| left; by left | by right].
      destruct (decide (c0 = c)) as [-> | ?]; left; [by left | by right].
Qed.

(** X4.  The keys of the proxies of a configuration returned by
    [FromYAML] are exactly the cluster names of the document. *)
Theorem FromYAML_keys data prob cfg c :
  Unmarshal_proxyProb data (mkProxyProb []) = Ok prob →
  FromYAML data = Ok cfg →
  is_Some (Proxies cfg !! c) ↔ c ∈ cluster_names (prob_Proxies prob).
Proof.
  intros Hprob (prob' & entries & Hprob' & Hall & -> & _)%FromYAML_Ok.
  rewrite Hprob in Hprob'. injection Hprob' as <-.
  rewrite Proxies_foldl, foldl_insert_keys, (merged_cluster_names _ _ _ Hall).
  simpl. rewrite lookup_empty. split; [intros [[? [=]] | ?]; done | by right].
Qed.

(** X5.  The default cluster of a configuration returned by [FromYAML] is
    the first cluster name of the document that is not empty, and the
    empty name when there is none. *)
Theorem FromYAML_default_first_nonempty data prob cfg :
  Unmarshal_proxyProb data (mkProxyProb []) = Ok prob →
  FromYAML data = Ok cfg →
  DefaultCluster cfg = first_nonempty (cluster_names (prob_Proxies prob)).
Proof. apply FromYAML_DefaultCluster. Qed.

(** X6.  A document that gives no proxy, be it empty, without a [proxies]
    key or with an empty one, is rejected by the validator with the error
    asking for a proxy. *)
Theorem FromYAML_no_proxies data prob :
  Unmarshal_proxyProb data (mkProxyProb []) = Ok prob →
  prob_Proxies prob = [] →
  FromYAML data
  = Err (errors_Wrap (errors_New "at least on proxy must be configured")
           "invalid config parameter").
Proof.
  intros Hprob Hitems. unfold FromYAML. rewrite Hprob, Hitems. simpl.
  unfold App_validate. simpl. by rewrite map_size_empty.
Qed.

(** *** The decoder on the structs of the package *)

Lemma mappingStruct_unknown {T} (tbl : Yaml.fields T) (items : MapSlice) out :
  Forall (fun item : MapItem =>
            ∃ name, Yaml.decode_name item.1 = Ok name ∧
                    Yaml.field_by_name tbl name = None) items →
  Yaml.mappingStruct tbl items out = Ok out.
Proof.
  induction 1 as [|[k v] rest (name & Hk & Hn) _ IH]; [done |].
  simpl in *. by rewrite Hk, Hn.
Qed.

Lemma field_by_name_Proxy name :
  name ∉ ["client_id"; "kafka"; "zoo_keeper"; "producer"; "consumer"] →
  Yaml.field_by_name Proxy_fields name = None.
Proof.
  intros Hn. repeat (apply not_elem_of_cons in Hn as [? Hn]).
  unfold Proxy_fields. cbn [Yaml.field_by_name].
  repeat (match goal with
          | |- context [String.eqb ?a name] =>
              destruct (String.eqb_spec a name); [congruence |]
          end).
  done.
Qed.

(** X7.  Keys of a block that are not the key of a field of [Proxy] are
    passed over in silence: a block made of such keys only leaves the
    record as it was. *)
Theorem Unmarshal_Proxy_unknown_keys (items : MapSlice) (proxyCfg : Proxy) :
  Forall (fun item : MapItem =>
            ∃ name, Yaml.decode_name item.1 = Ok name ∧
                    name ∉ ["client_id"; "kafka"; "zoo_keeper"; "producer"; "consumer"])
    items →
  Unmarshal_Proxy (YMap items) proxyCfg = Ok proxyCfg.
Proof.
  intros Hall. apply mappingStruct_unknown.
  eapply Forall_impl; [exact Hall |].
  intros item (name & Hk & Hn). exists name. split; [done |].
  by apply field_by_name_Proxy.
Qed.

(** X8.  A cluster whose block is null is not given the defaults: the
    block sets the whole record to zero, and the load is rejected. *)
Theorem FromYAML_null_block_rejected data prob cluster :
  Unmarshal_proxyProb data (mkProxyProb []) = Ok prob →
  block_of cluster (prob_Proxies prob) = Some YNull →
  ∃ e, FromYAML data = Err e.
Proof.
  intros Hprob Hblock.
  destruct (FromYAML data) as [cfg|e] eqn:Hload; [| by exists e]. exfalso.
  apply FromYAML_Ok in Hload as (prob' & entries & Hprob' & Hall & -> & Hv).
  rewrite Hprob in Hprob'. injection Hprob' as <-.
  pose proof (Proxies_block_of _ _ _ ∅ cluster Hall) as H.
  rewrite Hblock in H. destruct H as (p & Hp & Hlookup).
  injection Hp as <-.
  apply App_validate_None in Hv as [_ Hvalid].
  rewrite Proxies_foldl in Hvalid. specialize (Hvalid _ _ Hlookup). done.
Qed.

(** X9.  Top-level keys of the document other than [proxies] are ignored
    by [FromYAML]. *)
Theorem FromYAML_other_keys_ignored (items1 items2 : MapSlice) k v name :
  Yaml.decode_name k = Ok name →
  name ≠ "proxies" →
  FromYAML (YMap (items1 ++ (k, v) :: items2)%list)
  = FromYAML (YMap (items1 ++ items2)%list).
Proof.
  intros Hk Hname. unfold FromYAML, Unmarshal_proxyProb. simpl.
  rewrite (mappingStruct_skip _ _ _ _ v name); [done | done |].
  cbn [Yaml.field_by_name proxyProb_fields].
  destruct (String.eqb_spec "proxies" name); [congruence | done].
Qed.

(** *** Ready-made configurations *)

Lemma App_validate_DefaultApp (cluster : string) :
  App_validate (DefaultApp cluster) = None.
Proof.
  apply App_validate_None. split.
  - simpl. apply insert_non_empty.
  - intros c p. simpl. rewrite lookup_insert_Some, lookup_empty.
    intros [[_ <-] | [_ [=]]]. apply Proxy_validate_default.
Qed.

(** X10.  [DefaultApp] gives, for every cluster name, a configuration
    that [App.validate] accepts, with the default proxy as its only proxy
    and the cluster as its default cluster. *)
Theorem DefaultApp_valid (cluster : string) :
  App_validate (DefaultApp cluster) = None ∧
  (∀ c p, Proxies (DefaultApp cluster) !! c = Some p ↔
          c = cluster ∧ p = DefaultProxy) ∧
  Proxies (DefaultApp cluster) !! DefaultCluster (DefaultApp cluster)
  = Some DefaultProxy.
Proof.
  assert (∀ c p, Proxies (DefaultApp cluster) !! c = Some p ↔
                 c = cluster ∧ p = DefaultProxy) as Hone.
  { intros c p. simpl. rewrite lookup_insert_Some, lookup_empty. split.
    - by intros [[<- <-] | [_ [=]]].
    - intros [-> ->]. by left. }
  split; [apply App_validate_DefaultApp |]. split; [exact Hone | by apply Hone].
Qed.

(** X11.  Loading the document with the single cluster [cluster] and an
    empty block gives what [DefaultApp cluster] gives (the client
    identifier being the same). *)
Theorem FromYAML_single_empty_block (cluster : string) :
  FromYAML (YMap [(YStr "proxies", YMap [(YStr cluster, YMap [])])])
  = Ok (DefaultApp cluster).
Proof.
  apply FromYAML_Ok.
  exists (mkProxyProb [(YStr cluster, YMap [])]), [(cluster, DefaultProxy)].
  split; [reflexivity |]. split; [by repeat constructor |]. split; [reflexivity |].
  apply (App_validate_DefaultApp cluster).
Qed.

(** *** Loading a file *)

(** X12.  [FromYAMLFile] returns the configuration [FromYAML] returns
    for the content of the file, which has a proxy, has its default
    cluster among its proxies, and has only proxies that pass
    [Proxy.validate]; when it fails, the error is that of the step that
    failed ([os.Open], [ioutil.ReadAll] or [FromYAML]), returned as it is. *)
Theorem FromYAMLFile_outcome filename :
  match FromYAMLFile filename with
  | Ok cfg =>
      (∃ configFile data,
         os_Open filename = Ok configFile ∧ ioutil_ReadAll configFile = Ok data ∧
         FromYAML data = Ok cfg) ∧
      Proxies cfg ≠ ∅ ∧
      is_Some (Proxies cfg !! DefaultCluster cfg) ∧
      (∀ c p, Proxies cfg !! c = Some p → Proxy_validate p = None)
  | Err e =>
      os_Open filename = Err e ∨
      ∃ configFile, os_Open filename = Ok configFile ∧
        (ioutil_ReadAll configFile = Err e ∨
         ∃ data, ioutil_ReadAll configFile = Ok data ∧ FromYAML data = Err e)
  end.
Proof.
  unfold FromYAMLFile.
  destruct (os_Open filename) as [configFile|] eqn:Hopen; [| by left].
  destruct (ioutil_ReadAll configFile) as [data|] eqn:Hread.
  2: { right. exists configFile. split; [done | by left]. }
  destruct (FromYAML data) as [cfg|] eqn:Hload.
  2: { right. exists configFile. split; [done |]. right. by exists data. }
  split; [by exists configFile, data |].
  apply FromYAML_Ok in Hload as (prob & entries & _ & _ & -> & Hv).
  pose proof (App_validate_nonempty _ Hv) as Hne.
  apply App_validate_None in Hv as [_ Hall].
  split; [done |]. split; [| done].
  destruct (DefaultCluster_present newApp entries) as [[-> _] | H]; [by left | | done].
  by destruct Hne.
Qed.

End Config.

(** ** The claims at sample inputs

    The environment is empty, no duration text parses, the client identifier
    is [pixy], and [range] visits a map in the order of [map_to_list]. *)

Lemma map_to_list_perm (m : gmap string Proxy) : map_to_list m ≡ₚ map_to_list m.
Proof. reflexivity. Defined.

(** The scenarios of the specification. *)

Example load_prod :
  FromYAML no_env no_durations no_sequences "pixy" map_to_list prod_doc
  = Ok (add_proxy newApp ("prod", prod_proxy (defaultProxyWithClientID no_env "pixy"))).
Proof. vm_compute. reflexivity. Qed.

Example load_bad_version :
  match FromYAML no_env no_durations no_sequences "pixy" map_to_list bad_version_doc with
  | Ok _ => None
  | Err e => Some (Error e)
  end
  = Some "invalid config parameter: invalid config, cluster=prod: Bad kafka.version: 9.9.9".
Proof. vm_compute. reflexivity. Qed.

Example load_late_ack :
  match FromYAML no_env sample_durations no_sequences "pixy" map_to_list late_ack_doc with
  | Ok _ => None
  | Err e => Some (Error e)
  end
  = Some ("invalid config parameter: invalid config, cluster=prod: " +:+
          "consumer.ack_timeout must be < consumer.registration_timeout").
Proof. vm_compute. reflexivity. Qed.

Example load_no_proxies :
  match FromYAML no_env no_durations no_sequences "pixy" map_to_list (YMap []) with
  | Ok _ => None
  | Err e => Some (Error e)
  end
  = Some "invalid config parameter: at least on proxy must be configured".
Proof. vm_compute. reflexivity. Qed.

Example load_env_version :
  Kafka_Version (Kafka (defaultProxyWithClientID
                          (fun name => if String.eqb name "KAFKA_VERSION" then "0.9.0.1" else "")
                          "pixy"))
  = "0.9.0.1".
Proof. vm_compute. reflexivity. Qed.



(** The rule as stated fails for the proxy with equal timeouts and the version
    [9.9.9]: the validator stops at the version, and its error names
    neither timeout. *)
Lemma ack_error_not_reported_after_bad_version :
  ¬ ack_error_names_both_fields
      (bad_version_equal_timeouts (defaultProxyWithClientID no_env "pixy")).
Proof.
  unfold ack_error_names_both_fields. intros H.
  destruct H as (e & He & Hack & _).
  - vm_compute. discriminate.
  - vm_compute in He. injection He as <-.
    apply contains_spec in Hack. vm_compute in Hack. discriminate.
Qed.

(** [{proxies: {prod: {consumer: {ack_timeout: 20000000000}}}}]: both
    timeouts are 20 s, and the load fails with the error of the rule. *)
Lemma ack_timeout_rejected_witness :
  let p := equal_timeouts (defaultProxyWithClientID no_env "pixy") in
  let a := foldl add_proxy newApp [("prod", p)] in
  Proxies a !! "prod" = Some p ∧
  Consumer_RegistrationTimeout (Consumer p) ≤ Consumer_AckTimeout (Consumer p) ∧
  Proxy_validate p
  = Some (match first_violation producer_checks p with
          | Some e => e
          | None => ack_timeout_error
          end) ∧
  names (Error ack_timeout_error) "consumer.ack_timeout" ∧
  names (Error ack_timeout_error) "consumer.registration_timeout" ∧
  ∃ c' p' e',
    Proxies a !! c' = Some p' ∧ Proxy_validate p' = Some e' ∧
    App_validate map_to_list a
    = Some (errors_Wrap e' ("invalid config, cluster=" +:+ c')) ∧
    ((∀ c'' p'', Proxies a !! c'' = Some p'' → c'' ≠ "prod" →
                 Proxy_validate p'' = None) →
     c' = "prod" ∧ p' = p) ∧
    (∀ data prob entries,
       Unmarshal_proxyProb no_sequences data (mkProxyProb []) = Ok prob →
       Forall2 (merged no_env no_durations "pixy") (prob_Proxies prob) entries →
       a = foldl add_proxy newApp entries →
       let load_error :=
         errors_Wrap (errors_Wrap e' ("invalid config, cluster=" +:+ c'))
           "invalid config parameter" in
       FromYAML no_env no_durations no_sequences "pixy" map_to_list data = Err load_error ∧
       names (Error load_error) c' ∧
       names (Error load_error) (Error e')).
Proof.
  intros p a.
  assert (Proxies a !! "prod" = Some p) as Hp by reflexivity.
  assert (Consumer_RegistrationTimeout (Consumer p) ≤ Consumer_AckTimeout (Consumer p))
    as Hack by (vm_compute; discriminate).
  split; [exact Hp |]. split; [exact Hack |].
  exact (ack_timeout_rejected no_env no_durations no_sequences "pixy" map_to_list
           map_to_list_perm a "prod" p Hp Hack).
Defined.

Example load_equal_timeouts :
  match FromYAML no_env no_durations no_sequences "pixy" map_to_list equal_timeouts_doc with
  | Ok _ => None
  | Err e => Some (Error e)
  end
  = Some ("invalid config parameter: invalid config, cluster=prod: " +:+
          "consumer.ack_timeout must be < consumer.registration_timeout").
Proof. vm_compute. reflexivity. Qed.

Lemma empty_first_cluster_not_default_witness :
  (∀ m : gmap string Proxy, map_to_list m ≡ₚ map_to_list m) ∧
  ∃ cfg,
    FromYAML no_env no_durations no_sequences "pixy" map_to_list empty_first_doc = Ok cfg ∧
    head (cluster_names [(YStr "", YMap []); (YStr "b", YMap [])]) = Some "" ∧
    DefaultCluster cfg = "b".
Proof.
  split; [exact map_to_list_perm |].
  exact (empty_first_cluster_not_default no_env no_durations no_sequences "pixy"
           map_to_list map_to_list_perm).
Defined.

(** [{proxies: {1: {}}}]: the error does not show the key. *)
Lemma invalid_cluster_error_witness :
  let prob := mkProxyProb [(YInt 1, YMap [])] in
  Unmarshal_proxyProb no_sequences int_key_doc (mkProxyProb []) = Ok prob ∧
  (YInt 1, YMap []) ∈ prob_Proxies prob ∧
  (∀ c, YInt 1 ≠ YStr c) ∧
  (∃ e, FromYAML no_env no_durations no_sequences "pixy" map_to_list int_key_doc = Err e) ∧
  FromYAML no_env no_durations no_sequences "pixy" map_to_list int_key_doc
  = Err (errors_New "invalid cluster, ") ∧
  contains (pretty 1%Z) "invalid cluster, " = false.
Proof.
  intros prob.
  assert ((YInt 1, YMap []) ∈ prob_Proxies prob) as Hin by apply list_elem_of_here.
  assert (∀ c, YInt 1 ≠ YStr c) as Hk by (intros c; discriminate).
  destruct (invalid_cluster_error no_env no_durations no_sequences "pixy" map_to_list
              int_key_doc prob (YInt 1) (YMap []) eq_refl Hin Hk) as [Hrej Hmsg].
  split; [reflexivity |]. split; [exact Hin |]. split; [exact Hk |].
  split; [exact Hrej |]. split; [| reflexivity].
  exact (proj1 (Hmsg [] [] [] eq_refl (List.Forall2_nil _))).
Defined.

(** [{proxies: {a: {}, b: {kafka: []}}}]: the block of [b] does not decode,
    and nothing of [a] is returned. *)
Lemma FromYAML_all_or_nothing_witness :
  let d := defaultProxyWithClientID no_env "pixy" in
  let data := bad_block_doc in
  let load := FromYAML no_env no_durations no_sequences "pixy" map_to_list in
  (∀ m : gmap string Proxy, map_to_list m ≡ₚ map_to_list m) ∧
  load data = Err (errors_Wrap yaml_TypeError "failed to parse proxy config, cluster=b") ∧
  load_outcome no_env no_durations no_sequences "pixy" map_to_list data ∧
  ∀ prob,
    Unmarshal_proxyProb no_sequences data (mkProxyProb []) = Ok prob →
    (∀ k block y,
       (k, block) ∈ prob_Proxies prob →
       Unmarshal_Proxy no_durations (Yaml.Marshal block) d = Err y →
       ∃ e, load data = Err e) ∧
    (∀ (pre post : MapSlice) entries c block y,
       prob_Proxies prob = (pre ++ (YStr c, block) :: post)%list →
       Forall2 (merged no_env no_durations "pixy") pre entries →
       Unmarshal_Proxy no_durations (Yaml.Marshal block) d = Err y →
       let e := errors_Wrap y ("failed to parse proxy config, cluster=" +:+ c) in
       load data = Err e ∧ names (Error e) c) ∧
    (∀ entries v,
       Forall2 (merged no_env no_durations "pixy") (prob_Proxies prob) entries →
       App_validate map_to_list (foldl add_proxy newApp entries) = Some v →
       let e := errors_Wrap v "invalid config parameter" in
       load data = Err e ∧
       ((entries = [] ∧ v = errors_New "at least on proxy must be configured") ∨
        ∃ c p e',
          Proxies (foldl add_proxy newApp entries) !! c = Some p ∧
          Proxy_validate p = Some e' ∧
          v = errors_Wrap e' ("invalid config, cluster=" +:+ c) ∧
          names (Error e) c)).
Proof.
  intros d data load.
  split; [exact map_to_list_perm |]. split; [vm_compute; reflexivity |].
  exact (FromYAML_all_or_nothing no_env no_durations no_sequences "pixy"
           map_to_list map_to_list_perm bad_block_doc).
Defined.

(** The rule as stated fails for [{proxies: {1: {}, prod: {kafka: []}}}]: the
    block of [prod] does not decode, but the load stops at the key before
    it, and the error [invalid cluster, ] does not name [prod]. *)
Lemma decode_failure_error_without_cluster_name :
  ¬ decode_failure_names_cluster no_env no_durations no_sequences "pixy" map_to_list
      key_then_bad_block_doc.
Proof.
  unfold decode_failure_names_cluster. intros H.
  destruct (H (mkProxyProb [(YInt 1, YMap []); (YStr "prod", YMap [(YStr "kafka", YSeq [])])])
              "prod" (YMap [(YStr "kafka", YSeq [])]) yaml_TypeError)
    as (e & He & Hnames).
  - reflexivity.
  - apply list_elem_of_further, list_elem_of_here.
  - vm_compute. reflexivity.
  - vm_compute in He. injection He as <-.
    apply contains_spec in Hnames. vm_compute in Hnames. discriminate.
Qed.

Lemma FromYAML_invariants_witness :
  let cfg := add_proxy newApp ("prod", prod_proxy (defaultProxyWithClientID no_env "pixy")) in
  FromYAML no_env no_durations no_sequences "pixy" map_to_list prod_doc = Ok cfg ∧
  Proxies cfg ≠ ∅ ∧ is_Some (Proxies cfg !! DefaultCluster cfg).
Proof.
  intros cfg.
  assert (FromYAML no_env no_durations no_sequences "pixy" map_to_list prod_doc = Ok cfg)
    as Hload by (vm_compute; reflexivity).
  split; [exact Hload |].
  exact (FromYAML_invariants no_env no_durations no_sequences "pixy" map_to_list
           prod_doc cfg Hload).
Defined.

Lemma default_cluster_key_empty_first_witness :
  (∀ m : gmap string Proxy, map_to_list m ≡ₚ map_to_list m) ∧
  ∃ cfg,
    FromYAML no_env no_durations no_sequences "pixy" map_to_list
      empty_first_doc_with_default = Ok cfg ∧
    head (cluster_names [(YStr "", YMap []); (YStr "b", YMap [])]) = Some "" ∧
    DefaultCluster cfg = "b".
Proof.
  split; [exact map_to_list_perm |].
  exact (default_cluster_key_empty_first no_env no_durations no_sequences "pixy"
           map_to_list map_to_list_perm (YStr "x")).
Defined.

(** ** Further properties, outside the load *)

(** *** Lower bounds of the validator *)

(** X13.  The validator puts no lower bound on the acknowledgment timeout:
    in a proxy it accepts, the timeout may be replaced by any value below
    the registration timeout, zero and negative ones included; and zero is
    accepted for the flush threshold, the flush frequency and the shutdown
    timeout. *)
Theorem Proxy_validate_lower_bounds (p : Proxy) (n : Z) :
  Proxy_validate p = None →
  n < Consumer_RegistrationTimeout (Consumer p) →
  Proxy_validate (set_Consumer (set_Consumer_AckTimeout n (Consumer p)) p) = None ∧
  Proxy_validate (set_Producer (set_Producer_FlushBytes 0 (Producer p)) p) = None ∧
  Proxy_validate (set_Producer (set_Producer_FlushFrequency 0 (Producer p)) p) = None ∧
  Proxy_validate (set_Producer (set_Producer_ShutdownTimeout 0 (Producer p)) p) = None.
Proof.
  intros Hp Hn. unfold Proxy_validate in *. simpl.
  repeat match type of Hp with
         | (if ?b then _ else _) = None => destruct b eqn:?; [discriminate |]
         end.
  assert ((n >=? Consumer_RegistrationTimeout (Consumer p)) = false) as ->.
  { rewrite geb_ltb. by destruct (Z.ltb_spec n (Consumer_RegistrationTimeout (Consumer p)));
      [| lia]. }
  done.
Qed.

(** *** Settings of the client libraries *)

(** X14.  For a proxy that [Proxy.validate] accepts, the codec and the
    acknowledgment level of [SaramaProdCfg] are the entries the tables have
    for the configured names, and the numeric settings are in the ranges
    the validator checked. *)
Theorem SaramaProdCfg_validated (p : Proxy) :
  Proxy_validate p = None →
  compressionCodecs !! Producer_Compression (Producer p)
  = Some (sarama_Producer_Compression (SaramaProdCfg p)) ∧
  producerAcks !! Producer_RequiredAcks (Producer p)
  = Some (sarama_Producer_RequiredAcks (SaramaProdCfg p)) ∧
  0 < sarama_ChannelBufferSize (SaramaProdCfg p) ∧
  0 ≤ sarama_Producer_Flush_Bytes (SaramaProdCfg p) ∧
  0 ≤ sarama_Producer_Flush_Frequency (SaramaProdCfg p) ∧
  0 < sarama_Producer_Retry_Backoff (SaramaProdCfg p) ∧
  0 < sarama_Producer_Retry_Max (SaramaProdCfg p).
Proof.
  intros Hp. unfold Proxy_validate in Hp.
  repeat match type of Hp with
         | (if ?b then _ else _) = None => destruct b eqn:?; [discriminate |]
         end.
  unfold SaramaProdCfg, index, has_key in *. simpl.
  destruct (compressionCodecs !! _); [| discriminate].
  destruct (producerAcks !! _); [| discriminate].
  split_and!; try done; lia.
Qed.

(** X15.  [SaramaProdCfg] does not check the names: a compression that is
    not in the table becomes [CompressionNone], and an acknowledgment level
    that is not in the table becomes [NoResponse]. *)
Theorem SaramaProdCfg_unknown_names (p : Proxy) :
  (Producer_Compression (Producer p) ∉ supported_compressions →
   sarama_Producer_Compression (SaramaProdCfg p) = CompressionNone) ∧
  (Producer_RequiredAcks (Producer p) ∉ supported_acks →
   sarama_Producer_RequiredAcks (SaramaProdCfg p) = NoResponse).
Proof.
  split; intros Hn; simpl; unfold index.
  - pose proof (has_key_compressionCodecs (Producer_Compression (Producer p))) as H.
    rewrite bool_decide_eq_false_2 in H by done. unfold has_key in H.
    by destruct (compressionCodecs !! _).
  - pose proof (has_key_producerAcks (Producer_RequiredAcks (Producer p))) as H.
    rewrite bool_decide_eq_false_2 in H by done. unfold has_key in H.
    by destruct (producerAcks !! _).
Qed.

(** X16.  [KazooCfg] takes the chroot of the proxy as it is and sets the
    session timeout to 15 s whatever the proxy, which is between 2 and 20
    times the default tick time of 2 s. *)
Theorem KazooCfg_timeout (p : Proxy) :
  kazoo_Chroot (KazooCfg p) = ZooKeeper_Chroot (ZooKeeper p) ∧
  kazoo_Timeout (KazooCfg p) = 15 * Second ∧
  2 * (2 * Second) ≤ kazoo_Timeout (KazooCfg p) ≤ 20 * (2 * Second).
Proof. split; [done |]. split; [done |]. by vm_compute. Qed.

(** *** The client identifier *)

Section IdentityProperties.
Import Identity.
Variable IsLoopback : IP → bool.
Variable To4 : IP → IP.
Variable IP_String : IP → string.

Lemma getIP_loop_skip (pre : list Addr) a (post : list Addr) ipv6 :
Forall (fun a' => usable_v4 IsLoopback To4 a' = false) pre →
usable_v4 IsLoopback To4 a = true →
getIP_loop IsLoopback To4 (pre ++ a :: post)%list ipv6
= Ok (match a with IPNet ip => To4 ip | OtherAddr => [] end).
Proof.
intros Hpre Ha. revert ipv6.
induction Hpre as [|a' pre Ha' _ IH]; intros ipv6; simpl.
- destruct a as [ip|]; [| done]. simpl in Ha.
  apply andb_true_iff in Ha as [-> ->]. done.
- destruct a' as [ip'|]; [| apply IH]. simpl in Ha'.
  destruct (IsLoopback ip'); simpl in *; [apply IH |].
  rewrite Ha'. apply IH.
Qed.

Lemma getIP_loop_kept (addrs : list Addr) ipv6 :
Forall (fun a => usable_v4 IsLoopback To4 a = false) addrs →
getIP_loop IsLoopback To4 addrs ipv6
= let ipv6' := default ipv6 (last (omap (kept IsLoopback) addrs)) in
  if negb (is_nil ipv6') then Ok ipv6' else Err (errors_New "Unknown IP address").
Proof.
intros Hall. revert ipv6.
induction Hall as [|a addrs Ha _ IH]; intros ipv6; [done |].
destruct a as [ip|]; simpl; [| apply IH]. simpl in Ha.
destruct (IsLoopback ip); simpl in *; [apply IH |].
rewrite Ha, IH. simpl. rewrite last_cons.
by destruct (last _).
Qed.

(** X17.  [getIP] prefers IPv4: it returns the IPv4 form of the first
  address, in the order of [net.InterfaceAddrs], that is an IP network
  address, not loopback, and has an IPv4 form, whatever precedes or
  follows it. *)
Theorem getIP_prefers_IPv4 (pre post : list Addr) (ip : IP) :
Forall (fun a => usable_v4 IsLoopback To4 a = false) pre →
IsLoopback ip = false →
is_nil (To4 ip) = false →
getIP IsLoopback To4 (Ok (pre ++ IPNet ip :: post)%list) = Ok (To4 ip).
Proof.
intros Hpre Hlo H4. unfold getIP.
rewrite (getIP_loop_skip pre (IPNet ip)); [done | done |].
simpl. by rewrite Hlo, H4.
Qed.

(** X18.  Without such an address, [getIP] returns the last address that
  is an IP network address and not loopback, and fails with
  [Unknown IP address] when there is none or when that address is nil. *)
Theorem getIP_without_IPv4 (addrs : list Addr) :
Forall (fun a => usable_v4 IsLoopback To4 a = false) addrs →
getIP IsLoopback To4 (Ok addrs)
= match last (omap (kept IsLoopback) addrs) with
  | Some (b :: ip) => Ok (b :: ip)
  | _ => Err (errors_New "Unknown IP address")
  end.
Proof.
intros Hall. unfold getIP. rewrite (getIP_loop_kept _ _ Hall). cbv zeta.
unfold IP in *. by destruct (last _) as [[|b ip]|].
Qed.

Lemma getIP_loop_sound (addrs : list Addr) ipv6 ip :
getIP_loop IsLoopback To4 addrs ipv6 = Ok ip →
is_nil ip = false ∧
(ip = ipv6 ∨
 ∃ ip0, IPNet ip0 ∈ addrs ∧ IsLoopback ip0 = false ∧ (ip = To4 ip0 ∨ ip = ip0)).
Proof.
revert ipv6. induction addrs as [|a addrs IH]; intros ipv6; simpl.
- destruct (is_nil ipv6) eqn:E; simpl; [done |]. intros [= <-]. split; [done | by left].
- assert (∀ ipv6',
    (ipv6' = ipv6 ∨ ∃ ip0, a = IPNet ip0 ∧ IsLoopback ip0 = false ∧ ipv6' = ip0) →
    getIP_loop IsLoopback To4 addrs ipv6' = Ok ip →
    is_nil ip = false ∧
    (ip = ipv6 ∨
     ∃ ip0, IPNet ip0 ∈ a :: addrs ∧ IsLoopback ip0 = false ∧
            (ip = To4 ip0 ∨ ip = ip0))) as Hrest.
  { intros ipv6' Hv [Hnil [-> | (ip0 & Hin & Hlo & Hip)]]%IH; (split; [done |]).
    - destruct Hv as [-> | (ip0 & -> & Hlo & ->)]; [by left |].
      right. exists ip0. split; [by left |]. split; [done | by right].
    - right. exists ip0. split; [by right | done]. }
  destruct a as [ip0|]; [| apply Hrest; by left].
  destruct (IsLoopback ip0) eqn:Hlo; simpl; [apply Hrest; by left |].
  destruct (is_nil (To4 ip0)) eqn:H4; simpl.
  + apply Hrest. right. by exists ip0.
  + intros [= <-]. split; [done |]. right. exists ip0.
    split; [by left |]. split; [done | by left].
Qed.

(** X19.  An address returned by [getIP] is not nil and comes from an IP
  network address of the list that is not loopback: it is that address or
  its IPv4 form.  An error of [getIP] is that of [net.InterfaceAddrs] or
  [Unknown IP address]. *)
Theorem getIP_result (InterfaceAddrs : result (list Addr)) :
match getIP IsLoopback To4 InterfaceAddrs with
| Ok ip =>
    is_nil ip = false ∧
    ∃ addrs ip0,
      InterfaceAddrs = Ok addrs ∧ IPNet ip0 ∈ addrs ∧ IsLoopback ip0 = false ∧
      (ip = To4 ip0 ∨ ip = ip0)
| Err e =>
    InterfaceAddrs = Err e ∨
    ((∃ addrs, InterfaceAddrs = Ok addrs) ∧ e = errors_New "Unknown IP address")
end.
Proof.
destruct InterfaceAddrs as [addrs|e]; simpl; [| by left].
destruct (getIP_loop IsLoopback To4 addrs []) as [ip|e] eqn:H.
- apply getIP_loop_sound in H as [Hnil [-> | (ip0 & ? & ? & ?)]]; [done |].
  split; [done |]. by exists addrs, ip0.
- right. split; [by exists addrs |].
  revert H. generalize (@nil Byte.byte). clear.
  induction addrs as [|a addrs IH]; intros ipv6; simpl.
  + destruct (is_nil ipv6); simpl; [by intros [= <-] | done].
  + destruct a as [ip0|]; [| apply IH].
    destruct (IsLoopback ip0); simpl; [apply IH |].
    destruct (is_nil (To4 ip0)); simpl; [apply IH | done].
Qed.

(** Characters of the parts of the identifier. *)

Lemma has_char_app c (s1 s2 : string) :
has_char c (s1 +:+ s2) = has_char c s1 || has_char c s2.
Proof.
induction s1 as [|a s1 IH]; [done |].
change (has_char c (String a (s1 +:+ s2)) = has_char c (String a s1) || has_char c s2).
simpl. by rewrite IH, orb_assoc.
Qed.

Lemma has_char_Replace (s : string) (old new : Ascii.ascii) :
old ≠ new → has_char old (Replace s old new) = false.
Proof.
intros Hne. induction s as [|a s IH]; [done |]. simpl. rewrite IH, orb_false_r.
destruct (Ascii.eqb_spec a old) as [-> | Ha].
- by apply Ascii.eqb_neq.
- by apply Ascii.eqb_neq.
Qed.

Lemma has_char_all_chars (P : Ascii.ascii → bool) c (s : string) :
P c = false → all_chars P s = true → has_char c s = false.
Proof.
intros Hc. induction s as [|a s IH]; [done |]. simpl.
intros [Ha Hs]%andb_true_iff. rewrite (IH Hs), orb_false_r.
apply Ascii.eqb_neq. intros ->. congruence.
Qed.

Lemma hex_digit_upper (n : N) : is_upper_hex (hex_digit n) = true.
Proof.
unfold hex_digit.
repeat (match goal with |- context [match ?x with _ => _ end] => destruct x end;
        try reflexivity).
Qed.

Lemma Sprintf_X_chars (buffer : list Byte.byte) :
all_chars is_upper_hex (Sprintf_X buffer) = true ∧
String.length (Sprintf_X buffer) = (2 * length buffer)%nat.
Proof.
induction buffer as [|b rest [IH1 IH2]]; [done |]. simpl.
rewrite !hex_digit_upper, IH1, IH2. split; [done | lia].
Qed.

Lemma length_buffer_after_Read (read : list Byte.byte) :
length (buffer_after_Read read) = 8%nat.
Proof.
unfold buffer_after_Read. rewrite length_take, length_app, length_replicate. lia.
Qed.

Lemma has_char_pretty_N_go c (x : N) (s : string) :
(∀ d, pretty_N_char d ≠ c) →
has_char c (pretty_N_go x s) = has_char c s.
Proof.
intros Hc. revert s. induction (N.lt_wf_0 x) as [x _ IH]; intros s.
assert (x = 0 ∨ 0 < x)%N as [-> | Hx] by lia.
- by rewrite pretty_N_go_0.
- rewrite pretty_N_go_step by done. rewrite IH by (by apply N.div_lt).
  simpl. assert (Ascii.eqb (pretty_N_char (x `mod` 10)) c = false) as ->; [| done].
  apply Ascii.eqb_neq, Hc.
Qed.

Lemma has_colon_pretty (n : Z) : has_char ":" (pretty n) = false.
Proof.
assert (∀ d, pretty_N_char d ≠ ":"%char) as Hd.
{ intros d. unfold pretty_N_char. by repeat case_match. }
assert (∀ x : N, has_char ":" (pretty x) = false) as HN.
{ intros x. unfold pretty, pretty_N. case_decide; [done |].
  by rewrite has_char_pretty_N_go. }
destruct n as [|x|x]; [done | apply (HN (Npos x)) |].
change (has_char ":" ("-" +:+ pretty (Npos x)) = false).
rewrite has_char_app, HN. done.
Qed.

(** X20.  The identifier contains a colon only if the host part does: the
  host name, or the text of the address when the host name is not
  available; the time stamp and the process id bring none, and neither
  does the random host part. *)
Theorem newClientID_colon (Hostname : result string)
  (InterfaceAddrs : result (list Addr)) (read : list Byte.byte)
  (now : string) (pid : Z) :
has_char ":" (newClientID IsLoopback To4 IP_String Hostname InterfaceAddrs read now pid)
= match Hostname with
  | Ok hostname => has_char ":" hostname
  | Err _ =>
      match getIP IsLoopback To4 InterfaceAddrs with
      | Ok ip => has_char ":" (IP_String ip)
      | Err _ => false
      end
  end.
Proof.
unfold newClientID. rewrite !has_char_app, has_colon_pretty, has_char_Replace by done.
simpl. rewrite !orb_false_r.
destruct Hostname as [h|]; [done |].
destruct (getIP IsLoopback To4 InterfaceAddrs); [done |].
apply (has_char_all_chars is_upper_hex); [done | apply Sprintf_X_chars].
Qed.

(** X21.  When the host name is not available and [getIP] fails, be it
  that [net.InterfaceAddrs] fails or that no address is usable, the host
  part of the identifier is made of 16 upper-case hexadecimal digits,
  however many bytes [rand.Read] delivered. *)
Theorem newClientID_random_host (e1 e2 : error)
  (InterfaceAddrs : result (list Addr)) (read : list Byte.byte)
  (now : string) (pid : Z) :
getIP IsLoopback To4 InterfaceAddrs = Err e2 →
let host := Sprintf_X (buffer_after_Read read) in
newClientID IsLoopback To4 IP_String (Err e1) InterfaceAddrs read now pid
= "pixy_" +:+ host +:+ "_" +:+ Replace now ":" "." +:+ "_" +:+ pretty pid ∧
String.length host = 16%nat ∧
all_chars is_upper_hex host = true.
Proof.
intros HIP host. split; [unfold newClientID; by rewrite HIP |].
destruct (Sprintf_X_chars (buffer_after_Read read)) as [H1 H2].
split; [| done]. unfold host. by rewrite H2, length_buffer_after_Read.
Qed.

(** X22.  On one host and at one time, processes with different ids get
  different identifiers. *)
Theorem newClientID_pid_inj (Hostname : result string)
  (InterfaceAddrs : result (list Addr)) (read : list Byte.byte)
  (now : string) (pid1 pid2 : Z) :
newClientID IsLoopback To4 IP_String Hostname InterfaceAddrs read now pid1
= newClientID IsLoopback To4 IP_String Hostname InterfaceAddrs read now pid2 →
pid1 = pid2.
Proof.
unfold newClientID. intros H.
repeat apply String.app_inj in H. by apply (inj pretty) in H.
Qed.

End IdentityProperties.

(** ** The further properties at sample inputs *)

Local Abbreviation sample_FromYAML :=
  (FromYAML no_env no_durations no_sequences "pixy" map_to_list).
Local Abbreviation sample_proxyProb := (Unmarshal_proxyProb no_sequences).
Local Abbreviation sample_d := (defaultProxyWithClientID no_env "pixy").

Lemma App_validate_verdict_witness :
  let a := DefaultApp no_env "pixy" "prod" in
  (∀ m : gmap string Proxy, map_to_list m ≡ₚ map_to_list m) ∧
  (App_validate map_to_list a = None ↔
   Proxies a ≠ ∅ ∧ ∀ c p, Proxies a !! c = Some p → Proxy_validate p = None) ∧
  (Proxies a = ∅ →
   App_validate map_to_list a = Some (errors_New "at least on proxy must be configured")).
Proof.
  intros a. split; [exact map_to_list_perm |].
  exact (App_validate_verdict map_to_list map_to_list_perm a).
Defined.

Lemma FromYAML_proxies_valid_witness :
  let cfg := add_proxy newApp ("prod", prod_proxy sample_d) in
  sample_FromYAML prod_doc = Ok cfg ∧
  Proxies cfg !! "prod" = Some (prod_proxy sample_d) ∧
  Proxy_validate (prod_proxy sample_d) = None.
Proof.
  intros cfg.
  assert (sample_FromYAML prod_doc = Ok cfg) as Hload by (vm_compute; reflexivity).
  assert (Proxies cfg !! "prod" = Some (prod_proxy sample_d)) as Hp by reflexivity.
  split; [exact Hload |]. split; [exact Hp |].
  exact (FromYAML_proxies_valid no_env no_durations no_sequences "pixy" map_to_list
           map_to_list_perm prod_doc cfg "prod" _ Hload Hp).
Defined.

Lemma FromYAML_listener_defaults_witness :
  let cfg := foldl add_proxy newApp [("a", sample_d); ("b", sample_d); ("a", sample_d)] in
  sample_FromYAML three_items_doc = Ok cfg ∧
  GRPCAddr cfg = "0.0.0.0:19091" ∧ TCPAddr cfg = "0.0.0.0:19092" ∧ UnixAddr cfg = "".
Proof.
  intros cfg.
  assert (sample_FromYAML three_items_doc = Ok cfg) as Hload by (vm_compute; reflexivity).
  split; [exact Hload |].
  exact (FromYAML_listener_defaults no_env no_durations no_sequences "pixy" map_to_list
           three_items_doc cfg Hload).
Defined.

Lemma FromYAML_keys_witness :
  let items := [(YStr "a", YMap []); (YStr "b", YMap []); (YStr "a", YMap [])] in
  let cfg := foldl add_proxy newApp [("a", sample_d); ("b", sample_d); ("a", sample_d)] in
  sample_proxyProb three_items_doc (mkProxyProb []) = Ok (mkProxyProb items) ∧
  sample_FromYAML three_items_doc = Ok cfg ∧
  (is_Some (Proxies cfg !! "b") ↔ "b" ∈ cluster_names items).
Proof.
  intros items cfg.
  assert (sample_FromYAML three_items_doc = Ok cfg) as Hload by (vm_compute; reflexivity).
  split; [reflexivity |]. split; [exact Hload |].
  exact (FromYAML_keys no_env no_durations no_sequences "pixy" map_to_list
           three_items_doc (mkProxyProb items) cfg "b" eq_refl Hload).
Defined.

Lemma FromYAML_default_first_nonempty_witness :
  let items := [(YStr "", YMap []); (YStr "b", YMap [])] in
  let cfg := foldl add_proxy newApp [("", sample_d); ("b", sample_d)] in
  sample_proxyProb empty_first_doc (mkProxyProb []) = Ok (mkProxyProb items) ∧
  sample_FromYAML empty_first_doc = Ok cfg ∧
  DefaultCluster cfg = first_nonempty (cluster_names items).
Proof.
  intros items cfg.
  assert (sample_FromYAML empty_first_doc = Ok cfg) as Hload by (vm_compute; reflexivity).
  split; [reflexivity |]. split; [exact Hload |].
  exact (FromYAML_default_first_nonempty no_env no_durations no_sequences "pixy"
           map_to_list empty_first_doc (mkProxyProb items) cfg eq_refl Hload).
Defined.

Lemma FromYAML_no_proxies_witness :
  sample_proxyProb YNull (mkProxyProb []) = Ok (mkProxyProb []) ∧
  prob_Proxies (mkProxyProb []) = [] ∧
  sample_FromYAML YNull
  = Err (errors_Wrap (errors_New "at least on proxy must be configured")
           "invalid config parameter").
Proof.
  split; [reflexivity |]. split; [reflexivity |].
  exact (FromYAML_no_proxies no_env no_durations no_sequences "pixy" map_to_list
           YNull (mkProxyProb []) eq_refl eq_refl).
Defined.

(** [{zookeeper: {chroot: /kafka}}]: the key of the section is [zoo_keeper]. *)
Lemma Unmarshal_Proxy_unknown_keys_witness :
  let items := [(YStr "zookeeper", YMap [(YStr "chroot", YStr "/kafka")])] in
  Forall (fun item : MapItem =>
            ∃ name, Yaml.decode_name item.1 = Ok name ∧
                    name ∉ ["client_id"; "kafka"; "zoo_keeper"; "producer"; "consumer"])
    items ∧
  Unmarshal_Proxy no_durations (YMap items) sample_d = Ok sample_d.
Proof.
  intros items.
  assert (Forall (fun item : MapItem =>
            ∃ name, Yaml.decode_name item.1 = Ok name ∧
                    name ∉ ["client_id"; "kafka"; "zoo_keeper"; "producer"; "consumer"])
            items) as Hall.
  { repeat constructor. exists "zookeeper". split; [reflexivity |].
    intros Hin. repeat (apply elem_of_cons in Hin as [Heq | Hin]; [discriminate Heq |]).
    by apply elem_of_nil in Hin. }
  split; [exact Hall |].
  exact (Unmarshal_Proxy_unknown_keys no_durations items sample_d Hall).
Defined.

Lemma FromYAML_null_block_rejected_witness :
  let prob := mkProxyProb [(YStr "prod", YNull)] in
  (∀ m : gmap string Proxy, map_to_list m ≡ₚ map_to_list m) ∧
  sample_proxyProb null_block_doc (mkProxyProb []) = Ok prob ∧
  block_of "prod" (prob_Proxies prob) = Some YNull ∧
  ∃ e, sample_FromYAML null_block_doc = Err e.
Proof.
  intros prob. split; [exact map_to_list_perm |].
  split; [reflexivity |]. split; [reflexivity |].
  exact (FromYAML_null_block_rejected no_env no_durations no_sequences "pixy" map_to_list
           map_to_list_perm null_block_doc prob "prod" eq_refl eq_refl).
Defined.

Lemma FromYAML_other_keys_ignored_witness :
  let proxies :=
    (YStr "proxies", YMap [(YStr "a", YMap []); (YStr "b", YMap []); (YStr "a", YMap [])]) in
  Yaml.decode_name (YStr "grpc_addr") = Ok "grpc_addr" ∧
  "grpc_addr" ≠ "proxies" ∧
  sample_FromYAML three_items_doc = sample_FromYAML (YMap [proxies]).
Proof.
  intros proxies.
  assert ("grpc_addr" ≠ "proxies") as Hne by discriminate.
  split; [reflexivity |]. split; [exact Hne |].
  exact (FromYAML_other_keys_ignored no_env no_durations no_sequences "pixy" map_to_list
           [] [proxies] (YStr "grpc_addr") (YStr "localhost:1") "grpc_addr" eq_refl Hne).
Defined.

Lemma DefaultApp_valid_witness :
  let a := DefaultApp no_env "pixy" "prod" in
  (∀ m : gmap string Proxy, map_to_list m ≡ₚ map_to_list m) ∧
  App_validate map_to_list a = None ∧
  (∀ c p, Proxies a !! c = Some p ↔ c = "prod" ∧ p = DefaultProxy no_env "pixy") ∧
  Proxies a !! DefaultCluster a = Some (DefaultProxy no_env "pixy").
Proof.
  intros a. split; [exact map_to_list_perm |].
  exact (DefaultApp_valid no_env "pixy" map_to_list map_to_list_perm "prod").
Defined.

Lemma FromYAML_single_empty_block_witness :
  (∀ m : gmap string Proxy, map_to_list m ≡ₚ map_to_list m) ∧
  sample_FromYAML (YMap [(YStr "proxies", YMap [(YStr "prod", YMap [])])])
  = Ok (DefaultApp no_env "pixy" "prod").
Proof.
  split; [exact map_to_list_perm |].
  exact (FromYAML_single_empty_block no_env no_durations no_sequences "pixy" map_to_list
           map_to_list_perm "prod").
Defined.

Local Abbreviation sample_FromYAMLFile :=
  (FromYAMLFile no_env no_durations no_sequences "pixy" map_to_list string
     sample_Open sample_ReadAll).

Lemma FromYAMLFile_outcome_witness :
  let cfg := add_proxy newApp ("prod", prod_proxy sample_d) in
  (∀ m : gmap string Proxy, map_to_list m ≡ₚ map_to_list m) ∧
  sample_FromYAMLFile "config.yaml" = Ok cfg ∧
  sample_FromYAMLFile "missing.yaml"
  = Err (errors_New "open: no such file or directory") ∧
  Proxies cfg ≠ ∅ ∧
  is_Some (Proxies cfg !! DefaultCluster cfg) ∧
  (∀ c p, Proxies cfg !! c = Some p → Proxy_validate p = None).
Proof.
  intros cfg.
  assert (sample_FromYAMLFile "config.yaml" = Ok cfg) as Hload
    by (vm_compute; reflexivity).
  split; [exact map_to_list_perm |]. split; [exact Hload |]. split; [reflexivity |].
  pose proof (FromYAMLFile_outcome no_env no_durations no_sequences "pixy" map_to_list
                map_to_list_perm string sample_Open sample_ReadAll "config.yaml") as H.
  rewrite Hload in H. exact (proj2 H).
Defined.

Lemma Proxy_validate_lower_bounds_witness :
  let p := sample_d in
  Proxy_validate p = None ∧
  -1 < Consumer_RegistrationTimeout (Consumer p) ∧
  Proxy_validate (set_Consumer (set_Consumer_AckTimeout (-1) (Consumer p)) p) = None ∧
  Proxy_validate (set_Producer (set_Producer_FlushBytes 0 (Producer p)) p) = None ∧
  Proxy_validate (set_Producer (set_Producer_FlushFrequency 0 (Producer p)) p) = None ∧
  Proxy_validate (set_Producer (set_Producer_ShutdownTimeout 0 (Producer p)) p) = None.
Proof.
  intros p.
  assert (Proxy_validate p = None) as Hp by (vm_compute; reflexivity).
  assert (-1 < Consumer_RegistrationTimeout (Consumer p)) as Hn by (vm_compute; reflexivity).
  split; [exact Hp |]. split; [exact Hn |].
  exact (Proxy_validate_lower_bounds p (-1) Hp Hn).
Defined.

Lemma SaramaProdCfg_validated_witness :
  let p := sample_d in
  Proxy_validate p = None ∧
  compressionCodecs !! Producer_Compression (Producer p)
  = Some (sarama_Producer_Compression (SaramaProdCfg p)) ∧
  producerAcks !! Producer_RequiredAcks (Producer p)
  = Some (sarama_Producer_RequiredAcks (SaramaProdCfg p)) ∧
  0 < sarama_ChannelBufferSize (SaramaProdCfg p) ∧
  0 ≤ sarama_Producer_Flush_Bytes (SaramaProdCfg p) ∧
  0 ≤ sarama_Producer_Flush_Frequency (SaramaProdCfg p) ∧
  0 < sarama_Producer_Retry_Backoff (SaramaProdCfg p) ∧
  0 < sarama_Producer_Retry_Max (SaramaProdCfg p).
Proof.
  intros p.
  assert (Proxy_validate p = None) as Hp by (vm_compute; reflexivity).
  split; [exact Hp |]. exact (SaramaProdCfg_validated p Hp).
Defined.

Lemma getIP_prefers_IPv4_witness :
  let pre := [Identity.OtherAddr; Identity.IPNet loopback_v4; Identity.IPNet global_v6] in
  Forall (fun a => Identity.usable_v4 sample_IsLoopback sample_To4 a = false) pre ∧
  sample_IsLoopback lan_v4 = false ∧
  Identity.is_nil (sample_To4 lan_v4) = false ∧
  Identity.getIP sample_IsLoopback sample_To4
    (Ok (pre ++ Identity.IPNet lan_v4 :: [Identity.IPNet global_v6])%list)
  = Ok (sample_To4 lan_v4).
Proof.
  intros pre.
  assert (Forall (fun a => Identity.usable_v4 sample_IsLoopback sample_To4 a = false) pre)
    as Hpre by (repeat constructor).
  split; [exact Hpre |]. split; [reflexivity |]. split; [reflexivity |].
  exact (getIP_prefers_IPv4 sample_IsLoopback sample_To4 pre [Identity.IPNet global_v6]
           lan_v4 Hpre eq_refl eq_refl).
Defined.

Lemma getIP_without_IPv4_witness :
  let addrs := [Identity.IPNet global_v6; Identity.IPNet loopback_v4; Identity.OtherAddr] in
  Forall (fun a => Identity.usable_v4 sample_IsLoopback sample_To4 a = false) addrs ∧
  Identity.getIP sample_IsLoopback sample_To4 (Ok addrs) = Ok global_v6.
Proof.
  intros addrs.
  assert (Forall (fun a => Identity.usable_v4 sample_IsLoopback sample_To4 a = false) addrs)
    as Hall by (repeat constructor).
  split; [exact Hall |].
  exact (getIP_without_IPv4 sample_IsLoopback sample_To4 addrs Hall).
Defined.

(** The only address is the loopback one: [getIP] fails with
    [Unknown IP address], and the host part is random. *)
Lemma newClientID_random_host_witness :
  let addrs := Ok [Identity.IPNet loopback_v4; Identity.OtherAddr] in
  let read := [Byte.xab; Byte.x01] in
  let host := Identity.Sprintf_X (Identity.buffer_after_Read read) in
  Identity.getIP sample_IsLoopback sample_To4 addrs
  = Err (errors_New "Unknown IP address") ∧
  host = "AB01000000000000" ∧
  Identity.newClientID sample_IsLoopback sample_To4 sample_IP_String
    (Err (errors_New "no host name")) addrs read "2017-01-02T03:04:05Z" 42
  = "pixy_" +:+ host +:+ "_" +:+
    Identity.Replace "2017-01-02T03:04:05Z" ":" "." +:+ "_" +:+ pretty 42%Z ∧
  String.length host = 16%nat ∧
  Identity.all_chars Identity.is_upper_hex host = true.
Proof.
  intros addrs read host. split; [reflexivity |]. split; [reflexivity |].
  exact (newClientID_random_host sample_IsLoopback sample_To4 sample_IP_String
           (errors_New "no host name") (errors_New "Unknown IP address")
           addrs read "2017-01-02T03:04:05Z" 42 eq_refl).
Defined.

Lemma newClientID_pid_inj_witness :
  let id :=
    Identity.newClientID sample_IsLoopback sample_To4 sample_IP_String (Ok "host")
      (Ok []) [] "2017-01-02T03:04:05Z" in
  id 42 = "pixy_host_2017-01-02T03.04.05Z_42" ∧ id 42 = id 42 ∧ 42 = 42.
Proof.
  intros id. split; [reflexivity |]. split; [reflexivity |].
  exact (newClientID_pid_inj sample_IsLoopback sample_To4 sample_IP_String (Ok "host")
           (Ok []) [] "2017-01-02T03:04:05Z" 42 42 eq_refl).
Defined.
